(** * TensorIterator: planning state, construction interface and 32-bit splitting

    A shallow embedding of [aten/src/ATen/native/TensorIterator.h].  The
    header defines the operand record, the iterator's planning state, the
    construction interface (operand registration, mode flags, static shape)
    and the position type of the 32-bit splitter.  The planning passes that
    the header only declares ([compute_shape], [compute_strides],
    [coalesce_dimensions], [split], ...) are modelled further down from the
    specification text; each such definition says so in its comment. *)

From Stdlib Require Import ZArith Lia.
From stdpp Require Import base option list gmap strings pretty.

Local Open Scope Z_scope.

(** ** Collaborator types

    [ScalarType], [Device], [Layout] and [Tensor] come from headers that the
    iterator includes.  Only what the iterator reads from them is kept. *)

(** Modelled from the spec: the element types.  The header names only
    [ScalarType::Undefined], the type of an operand whose type is not
    known yet; the others stand for the numeric types of the arrays. *)
Inductive ScalarType :=
  | Byte | Char | Short | Int | Long | Half | Float | Double | Bool | BFloat16
  | Undefined.

Global Instance ScalarType_eq_dec : EqDecision ScalarType.
Proof. solve_decision. Defined.

(** Modelled from the spec: a device is host memory or an accelerator,
    with an index; [kCPU] is the default device of an operand. *)
Inductive DeviceType := CPU | CUDA.

Global Instance DeviceType_eq_dec : EqDecision DeviceType.
Proof. solve_decision. Defined.

Record Device := { type : DeviceType; index : Z }.

Global Instance Device_eq_dec : EqDecision Device.
Proof. solve_decision. Defined.

Definition kCPU : Device := {| type := CPU; index := -1 |}.

(** Modelled from the spec: the layout kind of an array; operands must be
    dense strided ([kStrided]). *)
Inductive Layout := kStrided | kSparse | kMkldnn.

Global Instance Layout_eq_dec : EqDecision Layout.
Proof. solve_decision. Defined.

Definition Layout_name (l : Layout) : string :=
  match l with
  | kStrided => "Strided"
  | kSparse => "Sparse"
  | kMkldnn => "Mkldnn"
  end.

(** Modelled from the spec: what an array object of the storage provider
    exposes to the iterator: sizes and strides (in elements), element
    type, device, layout kind and the address of its first element. *)
Record TensorImpl := {
  sizes : list Z;
  strides : list Z;
  scalar_type_ : ScalarType;
  device_ : Device;
  layout_ : Layout;
  data_ptr_ : Z
}.

Global Instance TensorImpl_eq_dec : EqDecision TensorImpl.
Proof. solve_decision. Defined.

(** A [Tensor] is a handle that may be undefined ([Tensor()]). *)
Definition Tensor := option TensorImpl.

Definition defined (t : Tensor) : bool := bool_decide (is_Some t).

Definition scalar_type (t : Tensor) : ScalarType :=
  match t with Some i => scalar_type_ i | None => Undefined end.

Definition layout (t : Tensor) : Layout :=
  match t with Some i => layout_ i | None => kStrided end.

Definition tensor_device (t : Tensor) : Device :=
  match t with Some i => device_ i | None => kCPU end.

(** ** Failures

    The header raises through three macros, which are defined outside it.
    A failed check is fatal to the call and unwinds it; the object keeps
    whatever had been written before the check. *)

(** Modelled from the spec: the failures of the header's checks, one
    constructor per macro, with the message given at the check.  An
    access [v[i]] outside the vector has its own constructor. *)
Inductive Exception :=
  | InternalAssertFailed (msg : string)   (* TORCH_INTERNAL_ASSERT *)
  | CheckFailed (msg : string)            (* TORCH_CHECK *)
  | AssertFailed                          (* AT_ASSERT *)
  | OutOfRange.                           (* operator[] outside [0, size) *)

Global Instance Exception_eq_dec : EqDecision Exception.
Proof. solve_decision. Defined.

Inductive outcome (A : Type) :=
  | Returns (a : A)
  | Throws (e : Exception).
Arguments Returns {A} a.
Arguments Throws {A} e.

(** ** OperandInfo *)

Record OperandInfo := {
  stride_bytes : list Z;
  tensor : Tensor;
  original_tensor : Tensor;
  device : Device;
  target_dtype : ScalarType;
  current_dtype : ScalarType;
  data : option Z;
  is_output : bool;
  is_read_write : bool
}.

Definition validate (op : OperandInfo) : outcome OperandInfo :=
  if negb (defined (tensor op)) || bool_decide (layout (tensor op) = kStrided)
  then Returns op
  else Throws (CheckFailed ("unsupported tensor layout: " +:+ Layout_name (layout (tensor op)))).

(** [explicit OperandInfo(const Tensor& t)] *)
Definition OperandInfo_of (t : Tensor) : outcome OperandInfo :=
  let dev := if defined t then tensor_device t else kCPU in
  let dty := if defined t then scalar_type t else Undefined in
  validate {| stride_bytes := []; tensor := t; original_tensor := None;
              device := dev; target_dtype := dty; current_dtype := dty;
              data := None; is_output := false; is_read_write := false |}.

(** [OperandInfo(const Tensor& t, Device device, ScalarType dtype)] *)
Definition OperandInfo_as (t : Tensor) (dev : Device) (dtype : ScalarType)
  : outcome OperandInfo :=
  validate {| stride_bytes := []; tensor := t; original_tensor := None;
              device := dev; target_dtype := dtype; current_dtype := scalar_type t;
              data := None; is_output := false; is_read_write := false |}.

Definition is_type_defined (op : OperandInfo) : bool :=
  negb (bool_decide (target_dtype op = Undefined)).

(** ** The iterator's state

    The members of [struct TensorIterator], in the order of their
    declaration.  [int] and [int64_t] values are kept as integers without
    a bound: the numbers of operands and dimensions of an iterator are far
    from the ends of these types. *)

Record TensorIterator := {
  shape_ : list Z;
  perm_ : list Z;
  view_offsets_ : list Z;
  names_ : list string;
  operands_ : list OperandInfo;
  num_outputs_ : Z;
  common_dtype_ : ScalarType;
  has_coalesced_dimensions_ : bool;
  accumulate_ : bool;
  resize_outputs_ : bool;
  is_reduction_ : bool;
  allow_cpu_scalars_ : bool;
  final_output_ : bool;
  check_mem_overlap_ : bool;
  all_ops_same_shape_ : bool;
  requires_channels_last_output_ : bool;
  requires_channels_last_3d_output_ : bool;
  static_shape_ : bool;
  check_all_same_dtype_ : bool;
  check_all_same_device_ : bool;
  enforce_safe_casting_to_output_ : bool;
  promote_inputs_to_common_dtype_ : bool;
  cast_common_dtype_to_outputs_ : bool
}.

(** [TensorIterator() {}] with the default member initialisers. *)
Definition TensorIterator_new : TensorIterator :=
  {| shape_ := []; perm_ := []; view_offsets_ := []; names_ := []; operands_ := [];
     num_outputs_ := 0; common_dtype_ := Undefined;
     has_coalesced_dimensions_ := false; accumulate_ := false; resize_outputs_ := true;
     is_reduction_ := false; allow_cpu_scalars_ := false; final_output_ := true;
     check_mem_overlap_ := false; all_ops_same_shape_ := false;
     requires_channels_last_output_ := false; requires_channels_last_3d_output_ := false;
     static_shape_ := false; check_all_same_dtype_ := true; check_all_same_device_ := true;
     enforce_safe_casting_to_output_ := false; promote_inputs_to_common_dtype_ := false;
     cast_common_dtype_to_outputs_ := false |}.

(** Field assignment, one function per member that some method writes. *)

Definition set_shape_ (v : list Z) (it : TensorIterator) : TensorIterator :=
  {| shape_ := v; perm_ := perm_ it; view_offsets_ := view_offsets_ it; names_ := names_ it;
     operands_ := operands_ it; num_outputs_ := num_outputs_ it;
     common_dtype_ := common_dtype_ it;
     has_coalesced_dimensions_ := has_coalesced_dimensions_ it; accumulate_ := accumulate_ it;
     resize_outputs_ := resize_outputs_ it; is_reduction_ := is_reduction_ it;
     allow_cpu_scalars_ := allow_cpu_scalars_ it; final_output_ := final_output_ it;
     check_mem_overlap_ := check_mem_overlap_ it; all_ops_same_shape_ := all_ops_same_shape_ it;
     requires_channels_last_output_ := requires_channels_last_output_ it;
     requires_channels_last_3d_output_ := requires_channels_last_3d_output_ it;
     static_shape_ := static_shape_ it; check_all_same_dtype_ := check_all_same_dtype_ it;
     check_all_same_device_ := check_all_same_device_ it;
     enforce_safe_casting_to_output_ := enforce_safe_casting_to_output_ it;
     promote_inputs_to_common_dtype_ := promote_inputs_to_common_dtype_ it;
     cast_common_dtype_to_outputs_ := cast_common_dtype_to_outputs_ it |}.

Definition set_view_offsets_ (v : list Z) (it : TensorIterator) : TensorIterator :=
  {| shape_ := shape_ it; perm_ := perm_ it; view_offsets_ := v; names_ := names_ it;
     operands_ := operands_ it; num_outputs_ := num_outputs_ it;
     common_dtype_ := common_dtype_ it;
     has_coalesced_dimensions_ := has_coalesced_dimensions_ it; accumulate_ := accumulate_ it;
     resize_outputs_ := resize_outputs_ it; is_reduction_ := is_reduction_ it;
     allow_cpu_scalars_ := allow_cpu_scalars_ it; final_output_ := final_output_ it;
     check_mem_overlap_ := check_mem_overlap_ it; all_ops_same_shape_ := all_ops_same_shape_ it;
     requires_channels_last_output_ := requires_channels_last_output_ it;
     requires_channels_last_3d_output_ := requires_channels_last_3d_output_ it;
     static_shape_ := static_shape_ it; check_all_same_dtype_ := check_all_same_dtype_ it;
     check_all_same_device_ := check_all_same_device_ it;
     enforce_safe_casting_to_output_ := enforce_safe_casting_to_output_ it;
     promote_inputs_to_common_dtype_ := promote_inputs_to_common_dtype_ it;
     cast_common_dtype_to_outputs_ := cast_common_dtype_to_outputs_ it |}.

Definition set_operands_ (v : list OperandInfo) (it : TensorIterator) : TensorIterator :=
  {| shape_ := shape_ it; perm_ := perm_ it; view_offsets_ := view_offsets_ it;
     names_ := names_ it; operands_ := v; num_outputs_ := num_outputs_ it;
     common_dtype_ := common_dtype_ it;
     has_coalesced_dimensions_ := has_coalesced_dimensions_ it; accumulate_ := accumulate_ it;
     resize_outputs_ := resize_outputs_ it; is_reduction_ := is_reduction_ it;
     allow_cpu_scalars_ := allow_cpu_scalars_ it; final_output_ := final_output_ it;
     check_mem_overlap_ := check_mem_overlap_ it; all_ops_same_shape_ := all_ops_same_shape_ it;
     requires_channels_last_output_ := requires_channels_last_output_ it;
     requires_channels_last_3d_output_ := requires_channels_last_3d_output_ it;
     static_shape_ := static_shape_ it; check_all_same_dtype_ := check_all_same_dtype_ it;
     check_all_same_device_ := check_all_same_device_ it;
     enforce_safe_casting_to_output_ := enforce_safe_casting_to_output_ it;
     promote_inputs_to_common_dtype_ := promote_inputs_to_common_dtype_ it;
     cast_common_dtype_to_outputs_ := cast_common_dtype_to_outputs_ it |}.

Definition set_num_outputs_ (v : Z) (it : TensorIterator) : TensorIterator :=
  {| shape_ := shape_ it; perm_ := perm_ it; view_offsets_ := view_offsets_ it;
     names_ := names_ it; operands_ := operands_ it; num_outputs_ := v;
     common_dtype_ := common_dtype_ it;
     has_coalesced_dimensions_ := has_coalesced_dimensions_ it; accumulate_ := accumulate_ it;
     resize_outputs_ := resize_outputs_ it; is_reduction_ := is_reduction_ it;
     allow_cpu_scalars_ := allow_cpu_scalars_ it; final_output_ := final_output_ it;
     check_mem_overlap_ := check_mem_overlap_ it; all_ops_same_shape_ := all_ops_same_shape_ it;
     requires_channels_last_output_ := requires_channels_last_output_ it;
     requires_channels_last_3d_output_ := requires_channels_last_3d_output_ it;
     static_shape_ := static_shape_ it; check_all_same_dtype_ := check_all_same_dtype_ it;
     check_all_same_device_ := check_all_same_device_ it;
     enforce_safe_casting_to_output_ := enforce_safe_casting_to_output_ it;
     promote_inputs_to_common_dtype_ := promote_inputs_to_common_dtype_ it;
     cast_common_dtype_to_outputs_ := cast_common_dtype_to_outputs_ it |}.


Definition set_resize_outputs_ (v : bool) (it : TensorIterator) : TensorIterator :=
  {| shape_ := shape_ it; perm_ := perm_ it; view_offsets_ := view_offsets_ it;
     names_ := names_ it; operands_ := operands_ it; num_outputs_ := num_outputs_ it;
     common_dtype_ := common_dtype_ it;
     has_coalesced_dimensions_ := has_coalesced_dimensions_ it; accumulate_ := accumulate_ it;
     resize_outputs_ := v; is_reduction_ := is_reduction_ it;
     allow_cpu_scalars_ := allow_cpu_scalars_ it; final_output_ := final_output_ it;
     check_mem_overlap_ := check_mem_overlap_ it; all_ops_same_shape_ := all_ops_same_shape_ it;
     requires_channels_last_output_ := requires_channels_last_output_ it;
     requires_channels_last_3d_output_ := requires_channels_last_3d_output_ it;
     static_shape_ := static_shape_ it; check_all_same_dtype_ := check_all_same_dtype_ it;
     check_all_same_device_ := check_all_same_device_ it;
     enforce_safe_casting_to_output_ := enforce_safe_casting_to_output_ it;
     promote_inputs_to_common_dtype_ := promote_inputs_to_common_dtype_ it;
     cast_common_dtype_to_outputs_ := cast_common_dtype_to_outputs_ it |}.

Definition set_check_mem_overlap_ (v : bool) (it : TensorIterator) : TensorIterator :=
  {| shape_ := shape_ it; perm_ := perm_ it; view_offsets_ := view_offsets_ it;
     names_ := names_ it; operands_ := operands_ it; num_outputs_ := num_outputs_ it;
     common_dtype_ := common_dtype_ it;
     has_coalesced_dimensions_ := has_coalesced_dimensions_ it; accumulate_ := accumulate_ it;
     resize_outputs_ := resize_outputs_ it; is_reduction_ := is_reduction_ it;
     allow_cpu_scalars_ := allow_cpu_scalars_ it; final_output_ := final_output_ it;
     check_mem_overlap_ := v; all_ops_same_shape_ := all_ops_same_shape_ it;
     requires_channels_last_output_ := requires_channels_last_output_ it;
     requires_channels_last_3d_output_ := requires_channels_last_3d_output_ it;
     static_shape_ := static_shape_ it; check_all_same_dtype_ := check_all_same_dtype_ it;
     check_all_same_device_ := check_all_same_device_ it;
     enforce_safe_casting_to_output_ := enforce_safe_casting_to_output_ it;
     promote_inputs_to_common_dtype_ := promote_inputs_to_common_dtype_ it;
     cast_common_dtype_to_outputs_ := cast_common_dtype_to_outputs_ it |}.

Definition set_static_shape_ (v : bool) (it : TensorIterator) : TensorIterator :=
  {| shape_ := shape_ it; perm_ := perm_ it; view_offsets_ := view_offsets_ it;
     names_ := names_ it; operands_ := operands_ it; num_outputs_ := num_outputs_ it;
     common_dtype_ := common_dtype_ it;
     has_coalesced_dimensions_ := has_coalesced_dimensions_ it; accumulate_ := accumulate_ it;
     resize_outputs_ := resize_outputs_ it; is_reduction_ := is_reduction_ it;
     allow_cpu_scalars_ := allow_cpu_scalars_ it; final_output_ := final_output_ it;
     check_mem_overlap_ := check_mem_overlap_ it; all_ops_same_shape_ := all_ops_same_shape_ it;
     requires_channels_last_output_ := requires_channels_last_output_ it;
     requires_channels_last_3d_output_ := requires_channels_last_3d_output_ it;
     static_shape_ := v; check_all_same_dtype_ := check_all_same_dtype_ it;
     check_all_same_device_ := check_all_same_device_ it;
     enforce_safe_casting_to_output_ := enforce_safe_casting_to_output_ it;
     promote_inputs_to_common_dtype_ := promote_inputs_to_common_dtype_ it;
     cast_common_dtype_to_outputs_ := cast_common_dtype_to_outputs_ it |}.

Definition set_check_all_same_dtype_ (v : bool) (it : TensorIterator) : TensorIterator :=
  {| shape_ := shape_ it; perm_ := perm_ it; view_offsets_ := view_offsets_ it;
     names_ := names_ it; operands_ := operands_ it; num_outputs_ := num_outputs_ it;
     common_dtype_ := common_dtype_ it;
     has_coalesced_dimensions_ := has_coalesced_dimensions_ it; accumulate_ := accumulate_ it;
     resize_outputs_ := resize_outputs_ it; is_reduction_ := is_reduction_ it;
     allow_cpu_scalars_ := allow_cpu_scalars_ it; final_output_ := final_output_ it;
     check_mem_overlap_ := check_mem_overlap_ it; all_ops_same_shape_ := all_ops_same_shape_ it;
     requires_channels_last_output_ := requires_channels_last_output_ it;
     requires_channels_last_3d_output_ := requires_channels_last_3d_output_ it;
     static_shape_ := static_shape_ it; check_all_same_dtype_ := v;
     check_all_same_device_ := check_all_same_device_ it;
     enforce_safe_casting_to_output_ := enforce_safe_casting_to_output_ it;
     promote_inputs_to_common_dtype_ := promote_inputs_to_common_dtype_ it;
     cast_common_dtype_to_outputs_ := cast_common_dtype_to_outputs_ it |}.

Definition set_check_all_same_device_ (v : bool) (it : TensorIterator) : TensorIterator :=
  {| shape_ := shape_ it; perm_ := perm_ it; view_offsets_ := view_offsets_ it;
     names_ := names_ it; operands_ := operands_ it; num_outputs_ := num_outputs_ it;
     common_dtype_ := common_dtype_ it;
     has_coalesced_dimensions_ := has_coalesced_dimensions_ it; accumulate_ := accumulate_ it;
     resize_outputs_ := resize_outputs_ it; is_reduction_ := is_reduction_ it;
     allow_cpu_scalars_ := allow_cpu_scalars_ it; final_output_ := final_output_ it;
     check_mem_overlap_ := check_mem_overlap_ it; all_ops_same_shape_ := all_ops_same_shape_ it;
     requires_channels_last_output_ := requires_channels_last_output_ it;
     requires_channels_last_3d_output_ := requires_channels_last_3d_output_ it;
     static_shape_ := static_shape_ it; check_all_same_dtype_ := check_all_same_dtype_ it;
     check_all_same_device_ := v;
     enforce_safe_casting_to_output_ := enforce_safe_casting_to_output_ it;
     promote_inputs_to_common_dtype_ := promote_inputs_to_common_dtype_ it;
     cast_common_dtype_to_outputs_ := cast_common_dtype_to_outputs_ it |}.

Definition set_enforce_safe_casting_to_output_ (v : bool) (it : TensorIterator) : TensorIterator :=
  {| shape_ := shape_ it; perm_ := perm_ it; view_offsets_ := view_offsets_ it;
     names_ := names_ it; operands_ := operands_ it; num_outputs_ := num_outputs_ it;
     common_dtype_ := common_dtype_ it;
     has_coalesced_dimensions_ := has_coalesced_dimensions_ it; accumulate_ := accumulate_ it;
     resize_outputs_ := resize_outputs_ it; is_reduction_ := is_reduction_ it;
     allow_cpu_scalars_ := allow_cpu_scalars_ it; final_output_ := final_output_ it;
     check_mem_overlap_ := check_mem_overlap_ it; all_ops_same_shape_ := all_ops_same_shape_ it;
     requires_channels_last_output_ := requires_channels_last_output_ it;
     requires_channels_last_3d_output_ := requires_channels_last_3d_output_ it;
     static_shape_ := static_shape_ it; check_all_same_dtype_ := check_all_same_dtype_ it;
     check_all_same_device_ := check_all_same_device_ it; enforce_safe_casting_to_output_ := v;
     promote_inputs_to_common_dtype_ := promote_inputs_to_common_dtype_ it;
     cast_common_dtype_to_outputs_ := cast_common_dtype_to_outputs_ it |}.

Definition set_promote_inputs_to_common_dtype_ (v : bool) (it : TensorIterator) : TensorIterator :=
  {| shape_ := shape_ it; perm_ := perm_ it; view_offsets_ := view_offsets_ it;
     names_ := names_ it; operands_ := operands_ it; num_outputs_ := num_outputs_ it;
     common_dtype_ := common_dtype_ it;
     has_coalesced_dimensions_ := has_coalesced_dimensions_ it; accumulate_ := accumulate_ it;
     resize_outputs_ := resize_outputs_ it; is_reduction_ := is_reduction_ it;
     allow_cpu_scalars_ := allow_cpu_scalars_ it; final_output_ := final_output_ it;
     check_mem_overlap_ := check_mem_overlap_ it; all_ops_same_shape_ := all_ops_same_shape_ it;
     requires_channels_last_output_ := requires_channels_last_output_ it;
     requires_channels_last_3d_output_ := requires_channels_last_3d_output_ it;
     static_shape_ := static_shape_ it; check_all_same_dtype_ := check_all_same_dtype_ it;
     check_all_same_device_ := check_all_same_device_ it;
     enforce_safe_casting_to_output_ := enforce_safe_casting_to_output_ it;
     promote_inputs_to_common_dtype_ := v;
     cast_common_dtype_to_outputs_ := cast_common_dtype_to_outputs_ it |}.

Definition set_cast_common_dtype_to_outputs_ (v : bool) (it : TensorIterator) : TensorIterator :=
  {| shape_ := shape_ it; perm_ := perm_ it; view_offsets_ := view_offsets_ it;
     names_ := names_ it; operands_ := operands_ it; num_outputs_ := num_outputs_ it;
     common_dtype_ := common_dtype_ it;
     has_coalesced_dimensions_ := has_coalesced_dimensions_ it; accumulate_ := accumulate_ it;
     resize_outputs_ := resize_outputs_ it; is_reduction_ := is_reduction_ it;
     allow_cpu_scalars_ := allow_cpu_scalars_ it; final_output_ := final_output_ it;
     check_mem_overlap_ := check_mem_overlap_ it; all_ops_same_shape_ := all_ops_same_shape_ it;
     requires_channels_last_output_ := requires_channels_last_output_ it;
     requires_channels_last_3d_output_ := requires_channels_last_3d_output_ it;
     static_shape_ := static_shape_ it; check_all_same_dtype_ := check_all_same_dtype_ it;
     check_all_same_device_ := check_all_same_device_ it;
     enforce_safe_casting_to_output_ := enforce_safe_casting_to_output_ it;
     promote_inputs_to_common_dtype_ := promote_inputs_to_common_dtype_ it;
     cast_common_dtype_to_outputs_ := v |}.

(** ** Methods as state transformers

    A method call takes the object's state and gives an outcome together
    with the state it leaves behind.  [const] methods leave it as it was. *)

Definition M (A : Type) : Type := TensorIterator → outcome A * TensorIterator.

Global Instance M_ret : MRet M := λ A a it, (Returns a, it).

Global Instance M_bind : MBind M := λ A B f m it,
  match m it with
  | (Returns a, it') => f a it'
  | (Throws e, it') => (Throws e, it')
  end.

Definition get : M TensorIterator := λ it, (Returns it, it).
Definition modify (f : TensorIterator → TensorIterator) : M unit := λ it, (Returns tt, f it).
Definition throw {A} (e : Exception) : M A := λ it, (Throws e, it).
Definition lift {A} (o : outcome A) : M A := λ it, (o, it).

(** Modelled from the spec: the three check macros.  A check whose
    condition holds does nothing; otherwise it raises, which is fatal to
    the call. *)
Definition TORCH_CHECK (cond : bool) (msg : string) : M unit :=
  if cond then mret tt else throw (CheckFailed msg).
Definition TORCH_INTERNAL_ASSERT (cond : bool) (msg : string) : M unit :=
  if cond then mret tt else throw (InternalAssertFailed msg).
Definition AT_ASSERT (cond : bool) : M unit :=
  if cond then mret tt else throw AssertFailed.

(** [operands_[i]] *)
Definition operand_at (i : Z) : M OperandInfo := λ it,
  match (if 0 <=? i then operands_ it !! Z.to_nat i else None) with
  | Some op => (Returns op, it)
  | None => (Throws OutOfRange, it)
  end.

(** *** Accessors *)

Definition ndim (it : TensorIterator) : Z := Z.of_nat (length (shape_ it)).
Definition shape (it : TensorIterator) : list Z := shape_ it.
Definition ntensors (it : TensorIterator) : Z := Z.of_nat (length (operands_ it)).
Definition noutputs (it : TensorIterator) : Z := num_outputs_ it.
Definition ninputs (it : TensorIterator) : Z := ntensors it - noutputs it.
Definition view_offsets (it : TensorIterator) : list Z := view_offsets_ it.

Definition common_dtype : M ScalarType :=
  it ← get;
  TORCH_INTERNAL_ASSERT (negb (bool_decide (common_dtype_ it = Undefined)))
                        "Queried for invalid common dtype!";;
  mret (common_dtype_ it).

Definition output (arg : Z) : M Tensor :=
  it ← get;
  AT_ASSERT (arg <? num_outputs_ it);;
  op ← operand_at arg;
  mret (tensor op).

Definition input (arg : Z) : M Tensor :=
  it ← get;
  AT_ASSERT ((0 <=? arg) && (arg <? ntensors it - num_outputs_ it));;
  op ← operand_at (num_outputs_ it + arg);
  mret (tensor op).

Definition should_accumulate (it : TensorIterator) : bool := accumulate_ it.
Definition is_final_output (it : TensorIterator) : bool := final_output_ it.

(** *** Construction *)

Definition emplace_back (mk : outcome OperandInfo) : M unit :=
  op ← lift mk;
  modify (λ it, set_operands_ (operands_ it ++ [op]) it).

Definition add_output (t : Tensor) : M unit :=
  emplace_back (OperandInfo_of t);;
  modify (λ it, set_num_outputs_ (num_outputs_ it + 1) it).

Definition add_output_as (t : Tensor) (dev : Device) (dtype : ScalarType) : M unit :=
  emplace_back (OperandInfo_as t dev dtype);;
  modify (λ it, set_num_outputs_ (num_outputs_ it + 1) it).

Definition add_input (t : Tensor) : M unit :=
  emplace_back (OperandInfo_of t).

Definition add_input_as (t : Tensor) (dev : Device) (dtype : ScalarType) : M unit :=
  emplace_back (OperandInfo_as t dev dtype).

Definition set_check_mem_overlap (check_mem_overlap : bool) : M unit :=
  modify (set_check_mem_overlap_ check_mem_overlap).

Definition check_all_same_dtype (_check_all_same_dtype : bool) : M unit :=
  modify (set_check_all_same_dtype_ _check_all_same_dtype).

Definition check_all_same_device (_check_all_same_device : bool) : M unit :=
  modify (set_check_all_same_device_ _check_all_same_device).

Definition enforce_safe_casting_to_output (_enforce_safe_casting_to_output : bool) : M unit :=
  modify (set_enforce_safe_casting_to_output_ _enforce_safe_casting_to_output).

Definition promote_inputs_to_common_dtype (_promote_inputs_to_common_dtype : bool) : M unit :=
  modify (set_promote_inputs_to_common_dtype_ _promote_inputs_to_common_dtype);;
  if _promote_inputs_to_common_dtype
  then modify (set_check_all_same_dtype_ false)
  else mret tt.

Definition cast_common_dtype_to_outputs (_cast_common_dtype_to_outputs : bool) : M unit :=
  modify (set_cast_common_dtype_to_outputs_ _cast_common_dtype_to_outputs);;
  if _cast_common_dtype_to_outputs
  then modify (set_check_all_same_dtype_ false)
  else mret tt.

Definition dont_resize_outputs : M unit :=
  modify (set_resize_outputs_ false).

Definition declare_static_shape (shape : list Z) : M unit :=
  it ← get;
  TORCH_CHECK (negb (resize_outputs_ it))
    "dont_resize_outputs() must be called before declare_static_shape(...)";;
  modify (set_shape_ shape);;
  modify (set_static_shape_ true).

Definition declare_static_shape_squash (shape : list Z) (squash_dim : Z) : M unit :=
  declare_static_shape shape;;
  it ← get;
  if bool_decide (length (shape_ it) = 0%nat) then mret tt else
  TORCH_CHECK ((0 <=? squash_dim) && (squash_dim <? Z.of_nat (length (shape_ it))))
    ("squash_dim " +:+ pretty squash_dim +:+ " must be in [0, "
       +:+ pretty (length (shape_ it)) +:+ ").");;
  modify (λ it, set_shape_ (<[Z.to_nat squash_dim := 1]> (shape_ it)) it).

(** *** Registration sequences

    A caller's sequence of [add_output] / [add_input] calls, in the order
    they are made. *)

Inductive registration :=
  | AddOutput (t : Tensor)
  | AddOutputAs (t : Tensor) (dev : Device) (dtype : ScalarType)
  | AddInput (t : Tensor)
  | AddInputAs (t : Tensor) (dev : Device) (dtype : ScalarType).

Definition register (c : registration) : M unit :=
  match c with
  | AddOutput t => add_output t
  | AddOutputAs t dev dtype => add_output_as t dev dtype
  | AddInput t => add_input t
  | AddInputAs t dev dtype => add_input_as t dev dtype
  end.

Fixpoint register_all (cs : list registration) : M unit :=
  match cs with
  | [] => mret tt
  | c :: cs' => register c;; register_all cs'
  end.

Definition registered_tensor (c : registration) : Tensor :=
  match c with
  | AddOutput t | AddOutputAs t _ _ | AddInput t | AddInputAs t _ _ => t
  end.

Definition registers_output (c : registration) : bool :=
  match c with
  | AddOutput _ | AddOutputAs _ _ _ => true
  | AddInput _ | AddInputAs _ _ _ => false
  end.

(** The tensors handed to [add_output], and those handed to [add_input]. *)
Definition declared_outputs (cs : list registration) : list Tensor :=
  registered_tensor <$> filter (λ c, registers_output c = true) cs.
Definition declared_inputs (cs : list registration) : list Tensor :=
  registered_tensor <$> filter (λ c, registers_output c = false) cs.

(** Outputs sit at [0, noutputs) and inputs after them: [output(i)] is the
    i-th declared output and [input(j)] the j-th declared input. *)
Definition outputs_then_inputs (cs : list registration) (it : TensorIterator) : Prop :=
  (∀ (i : nat) t, declared_outputs cs !! i = Some t →
     output (Z.of_nat i) it = (Returns t, it)) ∧
  (∀ (j : nat) t, declared_inputs cs !! j = Some t →
     input (Z.of_nat j) it = (Returns t, it)).

(** ** SplitUntil32Bit::iterator

    A position in the sequence of splits.  [vec] is the stack of iterators
    still to be split; the head of the list is [vec.back()].  Positions are
    objects: [operator==] compares addresses, so they live in a store and
    are named by their address. *)

Record iterator := { vec : list TensorIterator }.

Definition empty (v : list TensorIterator) : bool :=
  match v with [] => true | _ :: _ => false end.

Definition address := positive.

Definition iterator_eq (σ : gmap address iterator) (this other : address) : option bool :=
  a ← σ !! this;
  b ← σ !! other;
  Some (bool_decide (this = other) || (empty (vec a) && empty (vec b))).

Definition iterator_ne (σ : gmap address iterator) (this other : address) : option bool :=
  r ← iterator_eq σ this other;
  Some (negb r).

(** * Planning passes

    [build] and the passes it runs are declared in the header and defined
    elsewhere.  The definitions below follow the specification of the
    planning phase. *)

(** Modelled from the spec: the classes of fatal planning failures (the
    exception types that [build] raises are not part of the header). *)
Inductive Fault :=
  | ShapeError | TypeError | DeviceError | LayoutError | OverlapError | ResizeError.

Global Instance Fault_eq_dec : EqDecision Fault.
Proof. solve_decision. Defined.

Inductive planned (A : Type) :=
  | Planned (a : A)
  | Fatal (f : Fault).
Arguments Planned {A} a.
Arguments Fatal {A} f.

(** Modelled from the spec: the class under which the specification files
    the failures that the header itself raises.  A query of an undefined
    common dtype is a [TypeError]; an unsupported layout is a
    [LayoutError]. *)
Definition fault_class (e : Exception) : option Fault :=
  match e with
  | InternalAssertFailed msg =>
      if bool_decide (msg = "Queried for invalid common dtype!") then Some TypeError else None
  | CheckFailed msg =>
      if String.prefix "unsupported tensor layout: " msg then Some LayoutError else None
  | _ => None
  end.

(** Modelled from the spec: the same-dtype check of the type reconciler
    ([compute_types] is only declared).  With [check_all_same_dtype_] set,
    two operands whose types are both defined and differ are fatal. *)
Definition dtypes_disagree (a b : OperandInfo) : bool :=
  is_type_defined a && is_type_defined b
  && negb (bool_decide (target_dtype a = target_dtype b)).

(** Modelled from the spec: the check itself, as planning runs it. *)
Definition check_same_dtype (it : TensorIterator) : planned unit :=
  if check_all_same_dtype_ it
     && existsb (λ a, existsb (dtypes_disagree a) (operands_ it)) (operands_ it)
  then Fatal TypeError
  else Planned tt.

Global Instance planned_ret : MRet planned := λ A a, Planned a.

Global Instance planned_bind : MBind planned := λ A B f m,
  match m with
  | Planned a => f a
  | Fatal e => Fatal e
  end.

Fixpoint sequence {A} (l : list (planned A)) : planned (list A) :=
  match l with
  | [] => Planned []
  | m :: l' => a ← m; r ← sequence l'; Planned (a :: r)
  end.

(** Assignment to the members of an operand that planning rewrites. *)
Definition set_stride_bytes (v : list Z) (op : OperandInfo) : OperandInfo :=
  {| stride_bytes := v; tensor := tensor op; original_tensor := original_tensor op;
     device := device op; target_dtype := target_dtype op; current_dtype := current_dtype op;
     data := data op; is_output := is_output op; is_read_write := is_read_write op |}.

Definition set_data (v : option Z) (op : OperandInfo) : OperandInfo :=
  {| stride_bytes := stride_bytes op; tensor := tensor op;
     original_tensor := original_tensor op; device := device op;
     target_dtype := target_dtype op; current_dtype := current_dtype op;
     data := v; is_output := is_output op; is_read_write := is_read_write op |}.

(** Modelled from the spec: the size in bytes of one element of each
    type ([elementSize] is defined with the element types). *)
Definition elementSize (t : ScalarType) : Z :=
  match t with
  | Byte | Char | Bool => 1
  | Short | Half | BFloat16 => 2
  | Int | Float => 4
  | Long | Double => 8
  | Undefined => 0
  end.

(** ** Broadcasting *)

(** Modelled from the spec: two sizes that meet in one dimension are
    compatible when they are equal or one of them is 1, and the planned
    size is then the larger of the two; otherwise the shapes cannot be
    broadcast.  [compute_shape] is only declared in the header. *)
Definition broadcast_size (a b : Z) : planned Z :=
  if bool_decide (a = b) || bool_decide (a = 1) || bool_decide (b = 1)
  then Planned (Z.max a b)
  else Fatal ShapeError.

(** Modelled from the spec: shapes are aligned at their last dimension; the
    dimensions that the shorter one lacks in front count as size 1. *)
Definition pad_leading (n : nat) (fill : Z) (s : list Z) : list Z :=
  replicate (n - length s) fill ++ s.

(** Modelled from the spec: broadcasting of two shapes, dimension by
    dimension after alignment. *)
Definition broadcast_shapes (a b : list Z) : planned (list Z) :=
  let n := (length a `max` length b)%nat in
  sequence (zip_with broadcast_size (pad_leading n 1 a) (pad_leading n 1 b)).

(** Modelled from the spec: one broadcast shape for all operands, the
    shapes taken one after the other. *)
Fixpoint broadcast_all (acc : list Z) (shapes : list (list Z)) : planned (list Z) :=
  match shapes with
  | [] => Planned acc
  | s :: rest => acc' ← broadcast_shapes acc s; broadcast_all acc' rest
  end.

(** Modelled from the spec: the shapes of the operands that have a
    tensor; an undefined operand is one still to be allocated and takes no
    part. *)
Definition operand_shapes (it : TensorIterator) : list (list Z) :=
  omap (λ op, sizes <$> tensor op) (operands_ it).

(** Modelled from the spec: the shape pass.  A declared static shape is
    kept as it is and no shape is inferred or checked; otherwise the shapes
    of the defined operands are broadcast together, first to last. *)
Definition compute_shape (it : TensorIterator) : planned TensorIterator :=
  if static_shape_ it then Planned it else
  match operand_shapes it with
  | [] => Planned (set_shape_ [] it)
  | s :: rest => shape ← broadcast_all s rest; Planned (set_shape_ shape it)
  end.

(** Modelled from the spec: the stride pass.  Each defined operand gets one
    byte stride per planned dimension: 0 for a dimension it lacks in front
    and for a dimension where its own size is 1, and its element stride
    times its element size elsewhere. *)
Definition broadcast_strides (n : nat) (t : TensorImpl) : list Z :=
  pad_leading n 0
    (zip_with (λ size stride,
                 if bool_decide (size = 1) then 0 else stride * elementSize (scalar_type_ t))
              (sizes t) (strides t)).

(** Modelled from the spec: the stride pass over all operands; an
    undefined operand is left as it is. *)
Definition compute_strides (it : TensorIterator) : TensorIterator :=
  set_operands_
    ((λ op, match tensor op with
            | Some t => set_stride_bytes (broadcast_strides (length (shape_ it)) t) op
            | None => op
            end) <$> operands_ it)
    it.

(** Modelled from the spec: [build] runs the shape pass first and the
    stride pass next; a failure of a pass is the failure of [build].  The
    remaining passes are a parameter. *)
Definition build (later_passes : TensorIterator → planned TensorIterator)
    (it : TensorIterator) : planned TensorIterator :=
  it1 ← compute_shape it;
  later_passes (compute_strides it1).

(** The size of the [i]-th dimension counted from the last one, 1 where the
    shape has no such dimension. *)
Definition rsize (s : list Z) (i : nat) : Z := default 1 (reverse s !! i).

Definition compatible_sizes (x y : Z) : Prop := x = y ∨ x = 1 ∨ y = 1.

(** A defined, contiguous 1-D float tensor of [n] elements at address [ptr]. *)
Definition vector_of (n : Z) (ptr : Z) : Tensor :=
  Some {| sizes := [n]; strides := [1]; scalar_type_ := Float;
          device_ := kCPU; layout_ := kStrided; data_ptr_ := ptr |}.

(** ** Traversal *)

(** [l[d]], 0 outside the vector. *)
Definition at_ (l : list Z) (d : nat) : Z := default 0 (l !! d).

(** Modelled from the spec: the positions of an iteration space.  The
    planned dimensions are listed outermost first, so the last one moves
    fastest.  [box offsets shape] lists, in visiting order, the index
    vectors [offsets[d] <= i_d < offsets[d] + shape[d]]. *)
Fixpoint box (offsets shape : list Z) : list (list Z) :=
  match offsets, shape with
  | o :: offsets', n :: shape' => i ← seqZ o n; (i ::.) <$> box offsets' shape'
  | _, _ => [[]]
  end.

(** Modelled from the spec: the index vectors of a traversal of [shape],
    in visiting order. *)
Definition indices (shape : list Z) : list (list Z) :=
  box (replicate (length shape) 0) shape.


(** Modelled from the spec: the byte offset of a position, index times
    stride, summed over the dimensions. *)
Definition offset (strides idx : list Z) : Z :=
  foldr Z.add 0 (zip_with Z.mul idx strides).

(** Modelled from the spec: the byte offsets that a traversal of the
    iterator visits for one operand, in order. *)
Definition offsets (it : TensorIterator) (op : OperandInfo) : list Z :=
  offset (stride_bytes op) <$> indices (shape_ it).

Section traversal.
Context {V : Type} (mem : Z → V).

End traversal.

(** ** Coalescing *)






(** ** Splitting for 32-bit indexing *)




(** Modelled from the spec: shrinking dimension [dim] to [size] positions
    from [start] on; the view offset and the operands' data pointers move
    along. *)
Definition narrow (dim : nat) (start size : Z) (it : TensorIterator) : TensorIterator :=
  set_operands_
    ((λ op, set_data ((λ p, p + at_ (stride_bytes op) dim * start) <$> data op) op)
       <$> operands_ it)
    (set_view_offsets_ (alter (Z.add start) dim (view_offsets_ it))
       (set_shape_ (<[dim := size]> (shape_ it)) it)).

(** Modelled from the spec: the two halves of an iterator along [dim]; the
    first component is the copy that [split] returns, the second is what
    the split iterator itself becomes. *)
Definition split (dim : nat) (it : TensorIterator) : TensorIterator * TensorIterator :=
  let size := at_ (shape_ it) dim in
  let copy_size := size / 2 in
  let this_size := size - copy_size in
  (narrow dim 0 copy_size it, narrow dim copy_size this_size it).













(** What the splitter relies on in an iterator: one view offset per
    dimension, and no negative byte stride. *)
Definition splittable (it : TensorIterator) : Prop :=
  length (view_offsets_ it) = length (shape_ it)
  ∧ Forall (λ op, Forall (λ s, 0 ≤ s) (stride_bytes op)) (operands_ it).



(** Where an operand's memory starts relative to the original operation:
    its data pointer less the offset of the iterator's view offsets. *)
Definition origin (it : TensorIterator) (op : OperandInfo) : option Z :=
  (λ p, p - offset (stride_bytes op) (view_offsets_ it)) <$> data op.



(** * The rest of the header's interface *)

(** ** Accessors by operand index

    [strides(arg)], [dtype(arg)], [device(arg)] and [tensor(arg)] read
    [operands_[arg]]; three of them share their name with a member of
    another record and carry a suffix here. *)

Definition strides_of (arg : Z) : M (list Z) :=
  op ← operand_at arg; mret (stride_bytes op).

Definition dtype (arg : Z) : M ScalarType :=
  op ← operand_at arg; mret (current_dtype op).

Definition input_dtype (arg : Z) : M ScalarType :=
  it ← get;
  op ← operand_at (num_outputs_ it + arg);
  mret (current_dtype op).

Definition device_of (arg : Z) : M Device :=
  op ← operand_at arg; mret (device op).

Definition device_type (arg : Z) : M DeviceType :=
  d ← device_of arg; mret (type d).

Definition element_size (arg : Z) : M Z :=
  t ← dtype arg; mret (elementSize t).

Definition tensor_at (arg : Z) : M Tensor :=
  op ← operand_at arg; mret (tensor op).

(** [v[0]] on a stride vector. *)
Definition first_stride (v : list Z) : M Z :=
  match v with
  | s :: _ => mret s
  | [] => throw OutOfRange
  end.

(** The loop of [has_contiguous_first_dim] from operand [i] on, [n]
    operands being left. *)
Fixpoint has_contiguous_first_dim_from (i : Z) (n : nat) : M bool :=
  match n with
  | O => mret true
  | S n' =>
      v ← strides_of i;
      s ← first_stride v;
      e ← element_size i;
      if bool_decide (s ≠ e) then mret false
      else has_contiguous_first_dim_from (i + 1) n'
  end.

Definition has_contiguous_first_dim : M bool :=
  it ← get;
  has_contiguous_first_dim_from 0 (Z.to_nat (ntensors it)).

(** The test of the loop body on one operand: its first stride is the
    size of one element of its current dtype. *)
Definition first_dim_contiguous (op : OperandInfo) : bool :=
  bool_decide (head (stride_bytes op) = Some (elementSize (current_dtype op))).

(** ** Sequences of construction calls

    Every method of the header that writes the iterator, as one call. *)

Inductive construction :=
  | Register (c : registration)
  | SetCheckMemOverlap (b : bool)
  | CheckAllSameDtype (b : bool)
  | CheckAllSameDevice (b : bool)
  | EnforceSafeCastingToOutput (b : bool)
  | PromoteInputsToCommonDtype (b : bool)
  | CastCommonDtypeToOutputs (b : bool)
  | DontResizeOutputs
  | DeclareStaticShape (s : list Z)
  | DeclareStaticShapeSquash (s : list Z) (squash_dim : Z).

Definition construct (c : construction) : M unit :=
  match c with
  | Register r => register r
  | SetCheckMemOverlap b => set_check_mem_overlap b
  | CheckAllSameDtype b => check_all_same_dtype b
  | CheckAllSameDevice b => check_all_same_device b
  | EnforceSafeCastingToOutput b => enforce_safe_casting_to_output b
  | PromoteInputsToCommonDtype b => promote_inputs_to_common_dtype b
  | CastCommonDtypeToOutputs b => cast_common_dtype_to_outputs b
  | DontResizeOutputs => dont_resize_outputs
  | DeclareStaticShape s => declare_static_shape s
  | DeclareStaticShapeSquash s d => declare_static_shape_squash s d
  end.

(** The state after a caller has made the calls one after the other,
    going on after a call that raised with the object as the call left
    it. *)
Definition configure (cs : list construction) (it : TensorIterator) : TensorIterator :=
  foldl (λ it c, (construct c it).2) it cs.

(** An operand as registration leaves it: its tensor, if defined, is
    strided, and nothing that planning fills in has been written. *)
Definition freshly_registered (op : OperandInfo) : Prop :=
  (defined (tensor op) = true → layout (tensor op) = kStrided)
  ∧ current_dtype op = scalar_type (tensor op)
  ∧ stride_bytes op = [] ∧ original_tensor op = None ∧ data op = None
  ∧ is_output op = false ∧ is_read_write op = false.

(** What no construction call changes on an iterator made by
    [TensorIterator()]. *)
Definition before_build (it : TensorIterator) : Prop :=
  common_dtype_ it = Undefined
  ∧ (static_shape_ it = true → resize_outputs_ it = false)
  ∧ (static_shape_ it = false → shape_ it = [])
  ∧ 0 ≤ num_outputs_ it ≤ ntensors it
  ∧ Forall freshly_registered (operands_ it)
  ∧ perm_ it = [] ∧ view_offsets_ it = [] ∧ names_ it = []
  ∧ has_coalesced_dimensions_ it = false ∧ accumulate_ it = false
  ∧ is_reduction_ it = false ∧ allow_cpu_scalars_ it = false
  ∧ final_output_ it = true ∧ all_ops_same_shape_ it = false
  ∧ requires_channels_last_output_ it = false
  ∧ requires_channels_last_3d_output_ it = false.

(** The operand that a registration call constructs, and the state the
    call leaves when the constructor returns. *)
Definition new_operand (c : registration) : outcome OperandInfo :=
  match c with
  | AddOutput t | AddInput t => OperandInfo_of t
  | AddOutputAs t dev ty | AddInputAs t dev ty => OperandInfo_as t dev ty
  end.

Definition registered (c : registration) (op : OperandInfo) (it : TensorIterator)
  : TensorIterator :=
  let it' := set_operands_ (operands_ it ++ [op]) it in
  if registers_output c then set_num_outputs_ (num_outputs_ it' + 1) it' else it'.

(** The device that a registration call asks for: the tensor's own, or
    the one given with the call. *)
Definition registered_device (c : registration) : Device :=
  match c with
  | AddOutput t | AddInput t => if defined t then tensor_device t else kCPU
  | AddOutputAs _ dev _ | AddInputAs _ dev _ => dev
  end.

Definition registered_target_dtype (c : registration) : ScalarType :=
  match c with
  | AddOutput t | AddInput t => scalar_type t
  | AddOutputAs _ _ ty | AddInputAs _ _ ty => ty
  end.

Definition unsupported_layout (t : Tensor) : Prop :=
  defined t = true ∧ layout t ≠ kStrided.

(** * Properties of the construction interface *)

(** Runs the monadic plumbing of a method body on its state. *)
Ltac run_M :=
  repeat (progress (unfold mbind, M_bind, mret, M_ret, get, modify, throw, lift,
                           TORCH_CHECK, TORCH_INTERNAL_ASSERT, AT_ASSERT; cbn)).

(** ** Mode flags *)

Section flags.
Variable it : TensorIterator.

Lemma promote_true_state :
  promote_inputs_to_common_dtype true it =
  (Returns tt, set_check_all_same_dtype_ false (set_promote_inputs_to_common_dtype_ true it)).
Proof. reflexivity. Qed.

Lemma cast_true_state :
  cast_common_dtype_to_outputs true it =
  (Returns tt, set_check_all_same_dtype_ false (set_cast_common_dtype_to_outputs_ true it)).
Proof. reflexivity. Qed.

Lemma promote_false_state :
  promote_inputs_to_common_dtype false it =
  (Returns tt, set_promote_inputs_to_common_dtype_ false it).
Proof. reflexivity. Qed.

Lemma cast_false_state :
  cast_common_dtype_to_outputs false it =
  (Returns tt, set_cast_common_dtype_to_outputs_ false it).
Proof. reflexivity. Qed.

Lemma check_same_dtype_relaxed :
  check_all_same_dtype_ it = false → check_same_dtype it = Planned tt.
Proof. intros H. unfold check_same_dtype. by rewrite H. Qed.
End flags.

(** The check that the setters relax does fail while it is enabled: a float
    and a double operand under the default flags. *)
Example check_same_dtype_default_fails :
  let f := Some {| sizes := [2]; strides := [1]; scalar_type_ := Float;
                   device_ := kCPU; layout_ := kStrided; data_ptr_ := 0 |} in
  let d := Some {| sizes := [2]; strides := [1]; scalar_type_ := Double;
                   device_ := kCPU; layout_ := kStrided; data_ptr_ := 64 |} in
  let it := (register_all [AddInput f; AddInput d] TensorIterator_new).2 in
  check_same_dtype it = Fatal TypeError
  ∧ check_same_dtype (promote_inputs_to_common_dtype true it).2 = Planned tt.
Proof. split; reflexivity. Qed.

(** C7: [promote_inputs_to_common_dtype(true)] and
    [cast_common_dtype_to_outputs(true)] set their own flag and clear
    [check_all_same_dtype_], which a fresh iterator has set; afterwards the
    same-dtype check of planning passes whatever the operands' types. *)
Theorem enabling_promotion_or_casting_relaxes_dtype_check (it : TensorIterator) :
  check_all_same_dtype_ TensorIterator_new = true
  ∧ (let r := promote_inputs_to_common_dtype true it in
     r.1 = Returns tt
     ∧ promote_inputs_to_common_dtype_ r.2 = true
     ∧ check_all_same_dtype_ r.2 = false
     ∧ check_same_dtype r.2 = Planned tt)
  ∧ (let r := cast_common_dtype_to_outputs true it in
     r.1 = Returns tt
     ∧ cast_common_dtype_to_outputs_ r.2 = true
     ∧ check_all_same_dtype_ r.2 = false
     ∧ check_same_dtype r.2 = Planned tt).
Proof.
  split; [reflexivity|].
  split; cbv zeta.
  - rewrite promote_true_state. split_and!; [done..|].
    by apply check_same_dtype_relaxed.
  - rewrite cast_true_state. split_and!; [done..|].
    by apply check_same_dtype_relaxed.
Qed.

(** C10: with argument [false] the two setters write their own flag only.
    The state afterwards is the state before with that one member
    assigned, so [check_all_same_dtype_] and every other member keep their
    values; enabling and then disabling promotion leaves the same-dtype
    check off until [check_all_same_dtype(true)] turns it on again. *)
Theorem disabling_promotion_or_casting_keeps_other_flags (it : TensorIterator) :
  promote_inputs_to_common_dtype false it
    = (Returns tt, set_promote_inputs_to_common_dtype_ false it)
  ∧ cast_common_dtype_to_outputs false it
    = (Returns tt, set_cast_common_dtype_to_outputs_ false it)
  ∧ check_all_same_dtype_ (promote_inputs_to_common_dtype false it).2
    = check_all_same_dtype_ it
  ∧ check_all_same_dtype_ (cast_common_dtype_to_outputs false it).2
    = check_all_same_dtype_ it
  ∧ (let it' := ((promote_inputs_to_common_dtype true;;
                  promote_inputs_to_common_dtype false) it).2 in
     promote_inputs_to_common_dtype_ it' = false
     ∧ check_all_same_dtype_ it' = false
     ∧ check_all_same_dtype_ (check_all_same_dtype true it').2 = true)
  ∧ (let it' := ((cast_common_dtype_to_outputs true;;
                  cast_common_dtype_to_outputs false) it).2 in
     cast_common_dtype_to_outputs_ it' = false
     ∧ check_all_same_dtype_ it' = false
     ∧ check_all_same_dtype_ (check_all_same_dtype true it').2 = true).
Proof. repeat split. Qed.

(** ** Static shape *)

Lemma declare_static_shape_unfold (s : list Z) (it : TensorIterator) :
  declare_static_shape s it =
  if resize_outputs_ it
  then (Throws (CheckFailed
          "dont_resize_outputs() must be called before declare_static_shape(...)"), it)
  else (Returns tt, set_static_shape_ true (set_shape_ s it)).
Proof.
  unfold declare_static_shape, mbind, M_bind, get, TORCH_CHECK.
  by destruct (resize_outputs_ it).
Qed.




(** ** Common dtype *)

(** C3: a query of the common dtype while [common_dtype_] is [Undefined]
    raises the internal assertion, which the specification files under
    [TypeError]; no value is returned.  Otherwise the query returns the
    stored value, and a second query returns the same value; queries never
    write the state, so nothing is computed again. *)
Theorem common_dtype_query (it : TensorIterator) :
  (∃ e, fault_class e = Some TypeError
      ∧ common_dtype it =
        if bool_decide (common_dtype_ it = Undefined)
        then (Throws e, it)
        else (Returns (common_dtype_ it), it))
  ∧ (d1 ← common_dtype; d2 ← common_dtype; mret (d1, d2)) it =
    (if bool_decide (common_dtype_ it = Undefined)
     then (Throws (InternalAssertFailed "Queried for invalid common dtype!"), it)
     else (Returns (common_dtype_ it, common_dtype_ it), it))
  ∧ (common_dtype TensorIterator_new).1
    = Throws (InternalAssertFailed "Queried for invalid common dtype!").
Proof.
  split; [|split; [|reflexivity]].
  - exists (InternalAssertFailed "Queried for invalid common dtype!").
    split; [reflexivity|].
    unfold common_dtype. run_M. by case_bool_decide.
  - unfold common_dtype. run_M. case_bool_decide; run_M; [done|].
    by rewrite bool_decide_eq_false_2.
Qed.

(** ** Positions of the splitter *)

(** C9: two positions compare equal exactly when they are the same object
    or both have an empty stack; two exhausted positions are therefore
    equal wherever they live, and [operator!=] is the negation of
    [operator==]. *)
Theorem iterator_eq_iff (σ : gmap address iterator) (this other : address) (a b : iterator) :
  σ !! this = Some a →
  σ !! other = Some b →
  (iterator_eq σ this other = Some true ↔ this = other ∨ (vec a = [] ∧ vec b = []))
  ∧ (vec a = [] → vec b = [] → iterator_eq σ this other = Some true)
  ∧ iterator_ne σ this other = negb <$> iterator_eq σ this other.
Proof.
  intros Ha Hb. unfold iterator_ne, iterator_eq. rewrite Ha, Hb. cbn.
  split; [|split].
  - split.
    + intros [= H]. apply orb_true_iff in H as [H|H].
      * left. by apply bool_decide_eq_true in H.
      * right. apply andb_true_iff in H as [H1 H2].
        split; [by destruct (vec a) | by destruct (vec b)].
    + intros [->|[-> ->]].
      * by rewrite bool_decide_eq_true_2.
      * cbn. by rewrite orb_true_r.
  - intros -> ->. cbn. by rewrite orb_true_r.
  - reflexivity.
Qed.

Lemma iterator_eq_iff_witness :
  iterator_eq (<[2%positive := {| vec := [] |}]> {[1%positive := {| vec := [] |}]})
              1%positive 2%positive = Some true.
Proof.
  destruct (iterator_eq_iff
              (<[2%positive := {| vec := [] |}]> {[1%positive := {| vec := [] |}]})
              1%positive 2%positive {| vec := [] |} {| vec := [] |})
    as (H & _ & _); [reflexivity | reflexivity |].
  apply H. right. split; reflexivity.
Defined.

(** ** Operand registration *)

Section filter.
Context {A : Type} (P : A → Prop) `{!∀ x, Decision (P x)}.

Lemma filter_keeps_all (l : list A) : Forall P l → filter P l = l.
Proof.
  induction 1 as [|x l Hx _ IH]; [done|].
  by rewrite filter_cons_True, IH.
Qed.

Lemma filter_drops_all (l : list A) : Forall (λ x, ¬ P x) l → filter P l = [].
Proof.
  induction 1 as [|x l Hx _ IH]; [done|].
  by rewrite filter_cons_False.
Qed.
End filter.

Lemma register_effect (c : registration) (it : TensorIterator) :
  match register c it with
  | (Returns _, it') =>
      tensor <$> operands_ it' = (tensor <$> operands_ it) ++ [registered_tensor c]
      ∧ num_outputs_ it' = num_outputs_ it + (if registers_output c then 1 else 0)
  | (Throws _, it') => it' = it
  end.
Proof.
  destruct c; unfold register, add_output, add_output_as, add_input, add_input_as,
    emplace_back, OperandInfo_of, OperandInfo_as, validate; run_M;
    match goal with |- context [if ?b then Returns _ else _] => destruct b end;
    cbn; rewrite ?fmap_app; split_and?; (done || lia).
Qed.

Lemma register_all_effect (cs : list registration) (it0 it : TensorIterator) :
  register_all cs it0 = (Returns tt, it) →
  tensor <$> operands_ it = (tensor <$> operands_ it0) ++ (registered_tensor <$> cs)
  ∧ num_outputs_ it
    = num_outputs_ it0 + Z.of_nat (length (filter (λ c, registers_output c = true) cs)).
Proof.
  revert it0. induction cs as [|c cs IH]; intros it0.
  - intros [= <-]. rewrite app_nil_r. split; [done|cbn; lia].
  - rewrite filter_cons, fmap_cons.
    change (register_all (c :: cs) it0) with ((register c;; register_all cs) it0).
    unfold mbind, M_bind. pose proof (register_effect c it0) as Hc.
    destruct (register c it0) as [[[]|e] it1]; [|done].
    destruct Hc as [Hops Hnum]. intros Hrest.
    destruct (IH _ Hrest) as [-> ->]. rewrite Hops, Hnum, <- app_assoc.
    split; [done|].
    destruct (registers_output c); case_decide; try done; cbn [length]; lia.
Qed.

Lemma register_all_outputs_bounded (cs : list registration) (it0 : TensorIterator) :
  0 ≤ noutputs it0 ≤ ntensors it0 →
  0 ≤ noutputs (register_all cs it0).2 ≤ ntensors (register_all cs it0).2.
Proof.
  revert it0. induction cs as [|c cs IH]; intros it0 H0; cbn; [done|].
  unfold mbind, M_bind. pose proof (register_effect c it0) as Hc.
  destruct (register c it0) as [[[]|e] it1].
  - apply IH. destruct Hc as [Hops Hnum].
    apply (f_equal length) in Hops. rewrite length_app, !length_fmap in Hops.
    unfold noutputs, ntensors in *. rewrite Hnum. cbn in Hops.
    destruct (registers_output c); lia.
  - by subst.
Qed.

Lemma operand_at_tensor (it : TensorIterator) (i : nat) (t : Tensor) :
  (tensor <$> operands_ it) !! i = Some t →
  ∃ op, operand_at (Z.of_nat i) it = (Returns op, it) ∧ tensor op = t.
Proof.
  rewrite list_lookup_fmap. intros H.
  destruct (operands_ it !! i) as [op|] eqn:Hop; [|done].
  exists op. injection H as <-. unfold operand_at.
  destruct (Z.leb_spec 0 (Z.of_nat i)); [|lia].
  by rewrite Nat2Z.id, Hop.
Qed.

(** C4 (counterexample): after [add_input(a)] and then [add_output(b)]
    the only declared output is [b], yet [output(0)] is [a], the tensor
    that was declared as an input. *)
Lemma outputs_then_inputs_counterexample :
  let a := Some {| sizes := [2]; strides := [1]; scalar_type_ := Float;
                   device_ := kCPU; layout_ := kStrided; data_ptr_ := 0 |} in
  let b := Some {| sizes := [2]; strides := [1]; scalar_type_ := Float;
                   device_ := kCPU; layout_ := kStrided; data_ptr_ := 64 |} in
  let cs := [AddInput a; AddOutput b] in
  ∃ it, register_all cs TensorIterator_new = (Returns tt, it)
      ∧ declared_outputs cs = [b]
      ∧ output 0 it = (Returns a, it)
      ∧ ¬ outputs_then_inputs cs it.
Proof.
  cbv zeta. eexists. split; [reflexivity|]. split; [reflexivity|].
  split; [reflexivity|].
  intros [Hout _]. specialize (Hout 0%nat _ eq_refl). discriminate Hout.
Qed.

(** C4 (amended): whatever the order of the calls, and whether or not a
    call raised, the number of outputs stays between 0 and the number of
    operands; when every [add_output] call comes before every
    [add_input] call and all calls return, the outputs are the operands
    [0, noutputs) and the inputs are the remaining ones, each in the order
    of its declaration. *)
Theorem outputs_first_then_inputs (cs : list registration) :
  0 ≤ noutputs (register_all cs TensorIterator_new).2
    ≤ ntensors (register_all cs TensorIterator_new).2
  ∧ ∀ outs ins it,
      cs = outs ++ ins →
      Forall (λ c, registers_output c = true) outs →
      Forall (λ c, registers_output c = false) ins →
      register_all cs TensorIterator_new = (Returns tt, it) →
      noutputs it = Z.of_nat (length outs)
      ∧ ninputs it = Z.of_nat (length ins)
      ∧ outputs_then_inputs cs it.
Proof.
  split; [by apply register_all_outputs_bounded|].
  intros outs ins it -> Houts Hins Hrun.
  destruct (register_all_effect _ _ _ Hrun) as [Hops Hnum]. cbn in Hops, Hnum.
  assert (Hfo : filter (λ c, registers_output c = true) (outs ++ ins) = outs).
  { rewrite filter_app, (filter_keeps_all _ outs), (filter_drops_all _ ins), app_nil_r;
      [done| |done].
    eapply Forall_impl; [exact Hins|]. cbn. congruence. }
  assert (Hfi : filter (λ c, registers_output c = false) (outs ++ ins) = ins).
  { rewrite filter_app, (filter_drops_all _ outs), (filter_keeps_all _ ins); [done|done|].
    eapply Forall_impl; [exact Houts|]. cbn. congruence. }
  rewrite Hfo in Hnum.
  assert (Hlen : ntensors it = Z.of_nat (length outs) + Z.of_nat (length ins)).
  { unfold ntensors. apply (f_equal length) in Hops.
    rewrite !length_fmap, length_app in Hops. lia. }
  unfold ninputs, noutputs. split; [lia|]. split; [lia|].
  unfold outputs_then_inputs, declared_outputs, declared_inputs. rewrite Hfo, Hfi.
  rewrite fmap_app in Hops. split.
  - intros i t Hi.
    pose proof (lookup_lt_Some _ _ _ Hi) as Hlt. rewrite length_fmap in Hlt.
    destruct (operand_at_tensor it i t) as (op & Hat & Ht).
    { rewrite Hops, lookup_app_l; [done | by rewrite length_fmap]. }
    unfold output. run_M. rewrite Hnum.
    destruct (Z.ltb_spec (Z.of_nat i) (0 + Z.of_nat (length outs))); [|lia].
    cbn. rewrite Hat. by rewrite Ht.
  - intros j t Hj.
    pose proof (lookup_lt_Some _ _ _ Hj) as Hlt. rewrite length_fmap in Hlt.
    destruct (operand_at_tensor it (length outs + j) t) as (op & Hat & Ht).
    { rewrite Hops, lookup_app_r; rewrite length_fmap; [|lia].
      by replace (length outs + j - length outs)%nat with j by lia. }
    unfold input. run_M. rewrite Hnum, Hlen.
    destruct (Z.leb_spec 0 (Z.of_nat j)); [|lia].
    destruct (Z.ltb_spec (Z.of_nat j)
                (Z.of_nat (length outs) + Z.of_nat (length ins) - (0 + Z.of_nat (length outs))));
      [|lia].
    cbn. replace (0 + Z.of_nat (length outs) + Z.of_nat j) with (Z.of_nat (length outs + j))
      by lia.
    rewrite Hat. by rewrite Ht.
Qed.

Lemma outputs_first_then_inputs_witness :
  let a := Some {| sizes := [2]; strides := [1]; scalar_type_ := Float;
                   device_ := kCPU; layout_ := kStrided; data_ptr_ := 0 |} in
  let b := Some {| sizes := [2]; strides := [1]; scalar_type_ := Float;
                   device_ := kCPU; layout_ := kStrided; data_ptr_ := 64 |} in
  let cs := [AddOutput b; AddInput a] in
  outputs_then_inputs cs (register_all cs TensorIterator_new).2.
Proof.
  cbv zeta.
  eapply (proj2 (outputs_first_then_inputs _) [AddOutput _] [AddInput _]);
    [reflexivity | by repeat constructor | by repeat constructor | reflexivity].
Defined.

(** * Broadcasting *)

Lemma broadcast_size_Planned (x y z : Z) :
  broadcast_size x y = Planned z ↔ compatible_sizes x y ∧ z = Z.max x y.
Proof.
  unfold broadcast_size, compatible_sizes.
  repeat case_bool_decide; cbn; split; try (intros [= <-]; split; [auto|done]);
    try (by intros [_ ->]); try done; intros [[?|[?|?]] _]; done.
Qed.

Lemma broadcast_size_Fatal (x y : Z) (f : Fault) :
  broadcast_size x y = Fatal f → f = ShapeError ∧ ¬ compatible_sizes x y.
Proof.
  unfold broadcast_size, compatible_sizes.
  repeat case_bool_decide; cbn; try done. intros [= <-]. split; [done|]. tauto.
Qed.

Lemma sequence_broadcast_Planned (la lb c : list Z) :
  length la = length lb →
  sequence (zip_with broadcast_size la lb) = Planned c ↔
  Forall2 compatible_sizes la lb ∧ c = zip_with Z.max la lb.
Proof.
  revert lb c. induction la as [|x la IH]; intros [|y lb] c Hlen; try done; cbn.
  - split; [intros [= <-]; by split | by intros [_ ->]].
  - cbn in Hlen. unfold mbind, planned_bind.
    destruct (broadcast_size x y) as [z|f] eqn:Hxy.
    + apply broadcast_size_Planned in Hxy as [Hc ->].
      destruct (sequence (zip_with broadcast_size la lb)) as [r|f] eqn:Hr.
      * apply IH in Hr as [Hf ->]; [|lia].
        split; [intros [= <-]; split; [by constructor|done] | by intros [_ ->]].
      * split; [done|]. intros [Hf _]. apply Forall2_cons_1 in Hf as [_ Hf].
        assert (sequence (zip_with broadcast_size la lb)
                = Planned (zip_with Z.max la lb)) as Hs by (apply IH; [lia|done]).
        congruence.
    + apply broadcast_size_Fatal in Hxy as [_ Hn]. split; [done|].
      intros [Hf _]. by apply Forall2_cons_1 in Hf as [? _].
Qed.

Lemma sequence_broadcast_Fatal (la lb : list Z) (f : Fault) :
  sequence (zip_with broadcast_size la lb) = Fatal f → f = ShapeError.
Proof.
  revert lb. induction la as [|x la IH]; intros [|y lb]; try done; cbn.
  unfold mbind, planned_bind.
  destruct (broadcast_size x y) as [z|f'] eqn:Hxy.
  - destruct (sequence (zip_with broadcast_size la lb)) as [r|f'] eqn:Hr; [done|].
    intros [= <-]. by eapply IH.
  - intros [= <-]. by apply broadcast_size_Fatal in Hxy as [? _].
Qed.

Lemma length_pad_leading (n : nat) (fill : Z) (s : list Z) :
  length (pad_leading n fill s) = (n `max` length s)%nat.
Proof. unfold pad_leading. rewrite length_app, length_replicate. lia. Qed.

Lemma rsize_pad_leading (n : nat) (s : list Z) (i : nat) :
  rsize (pad_leading n 1 s) i = rsize s i.
Proof.
  unfold rsize, pad_leading. rewrite reverse_app, reverse_replicate.
  destruct (decide (i < length s)%nat) as [Hi|Hi].
  - by rewrite lookup_app_l by (by rewrite length_reverse).
  - rewrite lookup_app_r by (rewrite length_reverse; lia).
    rewrite (lookup_ge_None_2 (reverse s)) by (rewrite length_reverse; lia).
    rewrite length_reverse. cbn.
    destruct (replicate (n - length s) 1 !! (i - length s)%nat) as [z|] eqn:Hz; [|done].
    by apply lookup_replicate in Hz as [-> _].
Qed.

Lemma rsize_zip_with_max (la lb : list Z) (i : nat) :
  length la = length lb →
  rsize (zip_with Z.max la lb) i = Z.max (rsize la i) (rsize lb i).
Proof.
  intros Hlen. unfold rsize.
  assert (reverse (zip_with Z.max la lb) = zip_with Z.max (reverse la) (reverse lb)) as ->.
  { revert lb Hlen. induction la as [|x la IH]; intros [|y lb] Hlen; try done.
    cbn [zip_with length] in *. rewrite !reverse_cons, IH by lia.
    rewrite zip_with_app by (rewrite !length_reverse; lia). done. }
  rewrite lookup_zip_with.
  destruct (reverse la !! i) as [x|] eqn:Hx; cbn.
  - destruct (reverse lb !! i) as [y|] eqn:Hy; [done|].
    apply lookup_lt_Some in Hx. apply lookup_ge_None in Hy.
    rewrite length_reverse in *. lia.
  - destruct (reverse lb !! i) as [y|] eqn:Hy; [|done].
    apply lookup_lt_Some in Hy. apply lookup_ge_None in Hx.
    rewrite length_reverse in *. lia.
Qed.

(** Broadcasting two shapes succeeds exactly when every aligned pair of
    sizes is compatible, and then takes the larger size everywhere. *)
Lemma broadcast_shapes_Planned (a b c : list Z) :
  broadcast_shapes a b = Planned c ↔
  let n := (length a `max` length b)%nat in
  Forall2 compatible_sizes (pad_leading n 1 a) (pad_leading n 1 b)
  ∧ c = zip_with Z.max (pad_leading n 1 a) (pad_leading n 1 b).
Proof.
  unfold broadcast_shapes. apply sequence_broadcast_Planned.
  rewrite !length_pad_leading. lia.
Qed.

Lemma broadcast_shapes_Fatal (a b : list Z) (f : Fault) :
  broadcast_shapes a b = Fatal f → f = ShapeError.
Proof. apply sequence_broadcast_Fatal. Qed.

Lemma broadcast_shapes_rsize (a b c : list Z) (i : nat) :
  broadcast_shapes a b = Planned c →
  compatible_sizes (rsize a i) (rsize b i) ∧ rsize c i = Z.max (rsize a i) (rsize b i).
Proof.
  intros [Hc ->]%broadcast_shapes_Planned. cbv zeta in *.
  set (n := (length a `max` length b)%nat) in *.
  rewrite rsize_zip_with_max by (rewrite !length_pad_leading; lia).
  rewrite !rsize_pad_leading. split; [|done].
  rewrite <- (rsize_pad_leading n a), <- (rsize_pad_leading n b).
  unfold rsize.
  destruct (reverse (pad_leading n 1 a) !! i) as [x|] eqn:Hx;
    destruct (reverse (pad_leading n 1 b) !! i) as [y|] eqn:Hy; cbn;
    try (by right; (left + right)); try (by left).
  apply Forall2_reverse in Hc. eapply Forall2_lookup_lr in Hc; eauto.
Qed.

Lemma broadcast_all_Fatal (acc : list Z) (shapes : list (list Z)) (f : Fault) :
  broadcast_all acc shapes = Fatal f → f = ShapeError.
Proof.
  revert acc. induction shapes as [|s shapes IH]; intros acc; cbn; [done|].
  unfold mbind, planned_bind.
  destruct (broadcast_shapes acc s) as [acc'|f'] eqn:Hs.
  - apply IH.
  - intros [= <-]. by eapply broadcast_shapes_Fatal.
Qed.

Section mismatch.
Variables (i : nat) (x y : Z).
Hypotheses (Hx : 1 < x) (Hy : 1 < y) (Hxy : x ≠ y).

(** Once the accumulated shape has size [x] in a dimension, a later
    shape with another size above 1 there stops the fold. *)
Lemma broadcast_all_clash (acc : list Z) (shapes : list (list Z)) (b : list Z) :
  rsize acc i = x → b ∈ shapes → rsize b i = y →
  broadcast_all acc shapes = Fatal ShapeError.
Proof.
  revert acc. induction shapes as [|s shapes IH]; intros acc Hacc Hb Hbi.
  { by apply elem_of_nil in Hb. }
  cbn. unfold mbind, planned_bind.
  destruct (broadcast_shapes acc s) as [acc'|f] eqn:Hs.
  - destruct (broadcast_shapes_rsize _ _ _ i Hs) as [Hc Hmax].
    apply elem_of_cons in Hb as [<-|Hb].
    + unfold compatible_sizes in Hc. lia.
    + apply IH; [|done..]. unfold compatible_sizes in Hc. lia.
  - by rewrite (broadcast_shapes_Fatal _ _ _ Hs).
Qed.

Lemma broadcast_all_clash_later (acc : list Z) (l1 l2 : list (list Z)) (a b : list Z) :
  rsize a i = x → b ∈ l2 → rsize b i = y →
  broadcast_all acc (l1 ++ a :: l2) = Fatal ShapeError.
Proof.
  intros Ha Hb Hbi. revert acc. induction l1 as [|s l1 IH]; intros acc; cbn;
    unfold mbind, planned_bind.
  - destruct (broadcast_shapes acc a) as [acc'|f] eqn:Hs.
    + destruct (broadcast_shapes_rsize _ _ _ i Hs) as [Hc Hmax].
      eapply broadcast_all_clash; [|done..]. unfold compatible_sizes in Hc. lia.
    + by rewrite (broadcast_shapes_Fatal _ _ _ Hs).
  - destruct (broadcast_shapes acc s) as [acc'|f] eqn:Hs; [apply IH|].
    by rewrite (broadcast_shapes_Fatal _ _ _ Hs).
Qed.
End mismatch.

Lemma operand_shapes_two (l : list OperandInfo) (j k : nat) (opA opB : OperandInfo)
    (a b : TensorImpl) :
  (j < k)%nat → l !! j = Some opA → l !! k = Some opB →
  tensor opA = Some a → tensor opB = Some b →
  ∃ l1 l2 l3,
    omap (λ op, sizes <$> tensor op) l = l1 ++ sizes a :: l2 ++ sizes b :: l3.
Proof.
  intros Hjk Hj Hk Ha Hb.
  rewrite <- (take_drop_middle l j opA Hj).
  assert (drop (S j) l !! (k - S j)%nat = Some opB) as Hk'.
  { rewrite lookup_drop. by replace (S j + (k - S j))%nat with k by lia. }
  rewrite <- (take_drop_middle _ _ _ Hk').
  rewrite omap_app. cbn. rewrite Ha. cbn. rewrite omap_app. cbn. rewrite Hb. cbn.
  eauto.
Qed.

Lemma compute_shape_clash (it : TensorIterator) (l1 l2 l3 : list (list Z))
    (a b : list Z) (i : nat) :
  static_shape_ it = false →
  operand_shapes it = l1 ++ a :: l2 ++ b :: l3 →
  1 < rsize a i → 1 < rsize b i → rsize a i ≠ rsize b i →
  compute_shape it = Fatal ShapeError.
Proof.
  intros Hst Hshapes Ha Hb Hab. unfold compute_shape. rewrite Hst, Hshapes.
  assert (b ∈ l2 ++ b :: l3) as Hin by (apply elem_of_app; right; left).
  destruct l1 as [|s l1]; cbn.
  - by rewrite (broadcast_all_clash i _ _ Ha Hb Hab a _ b).
  - by rewrite (broadcast_all_clash_later i _ _ Ha Hb Hab s l1 _ a b).
Qed.

(** C5 (counterexample): once a static shape has been declared, operands
    of sizes 5 and 6 pass the shape pass: the declared shape is kept and
    [build] goes on to the later passes. *)
Lemma static_shape_skips_shape_check :
  let r := (dont_resize_outputs;; declare_static_shape [5];;
            register_all [AddOutput (vector_of 5 0); AddInput (vector_of 5 64);
                          AddInput (vector_of 6 128)]) TensorIterator_new in
  r.1 = Returns tt
  ∧ operand_shapes r.2 = [[5]; [5]; [6]]
  ∧ compute_shape r.2 = Planned r.2
  ∧ build Planned r.2 = Planned (compute_strides r.2)
  ∧ build Planned r.2 ≠ Fatal ShapeError.
Proof. cbv zeta. split_and!; [reflexivity..|discriminate]. Qed.

(** C5 (amended): on an iterator without a declared static shape, when
    two operands have, in some dimension counted from the last, sizes that
    are both above 1 and differ, the shape pass fails with a [ShapeError]
    and so does [build], whatever the later passes are; two 1-D operands
    of sizes 5 and 6 are the instance checked below. *)
Theorem mismatched_sizes_fail_build
    (later_passes : TensorIterator → planned TensorIterator)
    (it : TensorIterator) (j k : nat) (opA opB : OperandInfo) (a b : TensorImpl)
    (i : nat) (x y : Z) :
  static_shape_ it = false →
  j ≠ k →
  operands_ it !! j = Some opA → tensor opA = Some a →
  operands_ it !! k = Some opB → tensor opB = Some b →
  reverse (sizes a) !! i = Some x →
  reverse (sizes b) !! i = Some y →
  1 < x → 1 < y → x ≠ y →
  compute_shape it = Fatal ShapeError ∧ build later_passes it = Fatal ShapeError.
Proof.
  intros Hst Hjk Hj Ha Hk Hb Hx Hy Hx1 Hy1 Hxy.
  assert (rsize (sizes a) i = x) as Hra by (unfold rsize; by rewrite Hx).
  assert (rsize (sizes b) i = y) as Hrb by (unfold rsize; by rewrite Hy).
  assert (compute_shape it = Fatal ShapeError) as Hfail.
  { destruct (decide (j < k)%nat) as [Hlt|Hge].
    - destruct (operand_shapes_two _ _ _ _ _ _ _ Hlt Hj Hk Ha Hb) as (l1 & l2 & l3 & Hs).
      eapply (compute_shape_clash it l1 l2 l3 _ _ i); [done..| | |]; lia.
    - assert (k < j)%nat as Hlt by lia.
      destruct (operand_shapes_two _ _ _ _ _ _ _ Hlt Hk Hj Hb Ha) as (l1 & l2 & l3 & Hs).
      eapply (compute_shape_clash it l1 l2 l3 _ _ i); [done..| | |]; lia. }
  split; [done|]. unfold build. by rewrite Hfail.
Qed.

(** Two 1-D operands of sizes 5 and 6 fail to build. *)
Lemma mismatched_sizes_fail_build_witness :
  build Planned
    (register_all [AddOutput None; AddInput (vector_of 5 0); AddInput (vector_of 6 64)]
                  TensorIterator_new).2
  = Fatal ShapeError.
Proof.
  refine (proj2 (mismatched_sizes_fail_build _ _ 1 2 _ _ _ _ 0 5 6 _ _ _ _ _ _ _ _ _ _ _));
    first [reflexivity | done | lia].
Defined.

Lemma broadcast_strides_size_one (n : nat) (t : TensorImpl) :
  length (strides t) = length (sizes t) →
  (length (sizes t) ≤ n)%nat →
  length (broadcast_strides n t) = n
  ∧ ∀ i, pad_leading n 1 (sizes t) !! i = Some 1 → broadcast_strides n t !! i = Some 0.
Proof.
  intros Hlen Hn. unfold broadcast_strides.
  set (f := λ size stride : Z,
         if bool_decide (size = 1) then 0 else stride * elementSize (scalar_type_ t)).
  assert (length (zip_with f (sizes t) (strides t)) = length (sizes t)) as Hz.
  { rewrite length_zip_with. lia. }
  split.
  - rewrite length_pad_leading. lia.
  - intros i. unfold pad_leading. rewrite Hz.
    destruct (decide (i < n - length (sizes t))%nat) as [Hi|Hi].
    + intros _. rewrite lookup_app_l by (by rewrite length_replicate).
      by apply lookup_replicate_2.
    + rewrite !lookup_app_r by (rewrite length_replicate; lia).
      rewrite !length_replicate. intros Hs.
      rewrite lookup_zip_with, Hs. cbn.
      destruct (strides t !! (i - (n - length (sizes t)))%nat) as [st|] eqn:Hst.
      * cbn. unfold f. by rewrite bool_decide_eq_true_2.
      * apply lookup_lt_Some in Hs. apply lookup_ge_None in Hst. lia.
Qed.

(** C1: for two operands whose shapes are compatible (aligned at the
    last dimension, missing leading dimensions counting as 1, each pair of
    sizes equal or containing a 1), broadcasting plans in every dimension
    the larger of the two sizes, and each operand gets one byte stride per
    planned dimension, 0 wherever the operand's own size is 1 or the
    dimension is missing.  An iterator that holds the two operands and
    infers its shape plans exactly this in [compute_shape] and
    [compute_strides], and [build] hands it to the later passes. *)
Theorem broadcast_shape_and_strides (a b : TensorImpl) :
  length (strides a) = length (sizes a) →
  length (strides b) = length (sizes b) →
  let n := (length (sizes a) `max` length (sizes b))%nat in
  let A := pad_leading n 1 (sizes a) in
  let B := pad_leading n 1 (sizes b) in
  Forall2 compatible_sizes A B →
  broadcast_shapes (sizes a) (sizes b) = Planned (zip_with Z.max A B)
  ∧ length (zip_with Z.max A B) = n
  ∧ (∀ i x y, A !! i = Some x → B !! i = Some y →
       zip_with Z.max A B !! i = Some (Z.max x y))
  ∧ length (broadcast_strides n a) = n
  ∧ length (broadcast_strides n b) = n
  ∧ (∀ i, A !! i = Some 1 → broadcast_strides n a !! i = Some 0)
  ∧ (∀ i, B !! i = Some 1 → broadcast_strides n b !! i = Some 0)
  ∧ ∀ it opA opB,
      static_shape_ it = false →
      operands_ it = [opA; opB] →
      tensor opA = Some a → tensor opB = Some b →
      ∃ it1,
        compute_shape it = Planned it1
        ∧ shape it1 = zip_with Z.max A B
        ∧ operands_ (compute_strides it1)
          = [set_stride_bytes (broadcast_strides n a) opA;
             set_stride_bytes (broadcast_strides n b) opB]
        ∧ ∀ later_passes, build later_passes it = later_passes (compute_strides it1).
Proof.
  intros Hla Hlb n A B Hcompat.
  assert (broadcast_shapes (sizes a) (sizes b) = Planned (zip_with Z.max A B)) as Hbs.
  { by apply broadcast_shapes_Planned. }
  assert (length (zip_with Z.max A B) = n) as Hn.
  { rewrite length_zip_with. unfold A, B. rewrite !length_pad_leading. lia. }
  destruct (broadcast_strides_size_one n a Hla) as [HlenA HzeroA]; [lia|].
  destruct (broadcast_strides_size_one n b Hlb) as [HlenB HzeroB]; [lia|].
  split_and!; try done.
  - intros i x y Hx Hy. by rewrite lookup_zip_with, Hx, Hy.
  - intros it opA opB Hst Hops Ha Hb.
    assert (compute_shape it = Planned (set_shape_ (zip_with Z.max A B) it)) as Hcs.
    { unfold compute_shape, operand_shapes. rewrite Hst, Hops. cbn. rewrite Ha, Hb. cbn.
      unfold mbind, planned_bind. by rewrite Hbs. }
    exists (set_shape_ (zip_with Z.max A B) it). split_and!; try done.
    + unfold compute_strides. cbn. rewrite Hops, Hn. cbn. by rewrite Ha, Hb.
    + intros later_passes. unfold build. by rewrite Hcs.
Qed.

(** Shapes [3,1] and [1,4] plan the shape [3,4]; with float elements the
    byte strides are [4,0] for the first and [0,4] for the second. *)
Lemma broadcast_shape_and_strides_witness :
  let a := {| sizes := [3; 1]; strides := [1; 1]; scalar_type_ := Float;
              device_ := kCPU; layout_ := kStrided; data_ptr_ := 0 |} in
  let b := {| sizes := [1; 4]; strides := [4; 1]; scalar_type_ := Float;
              device_ := kCPU; layout_ := kStrided; data_ptr_ := 64 |} in
  let it := (register_all [AddInput (Some a); AddInput (Some b)] TensorIterator_new).2 in
  ∃ it1, compute_shape it = Planned it1
       ∧ shape it1 = [3; 4]
       ∧ stride_bytes <$> operands_ (compute_strides it1) = [[4; 0]; [0; 4]].
Proof.
  intros a b it.
  destruct (broadcast_shape_and_strides a b) as (_ & _ & _ & _ & _ & _ & _ & H);
    [reflexivity | reflexivity
    | repeat constructor; by (left + right; (left + right)) |].
  edestruct (H it) as (it1 & Hcs & Hshape & Hops & _);
    [reflexivity | reflexivity | reflexivity | reflexivity |].
  exists it1. split; [exact Hcs|]. split; [exact Hshape|]. by rewrite Hops.
Defined.

(** * Coalescing *)

Section list_monad.
Context {A B C : Type}.


End list_monad.














(** * Splitting for 32-bit indexing *)

(** ** Positions of a box *)






(** ** Offsets *)

Lemma offset_cons (s i : Z) (strides idx : list Z) :
  offset (s :: strides) (i :: idx) = i * s + offset strides idx.
Proof. reflexivity. Qed.



(** ** The dimension to split *)







(** ** Narrowing and splitting *)

Lemma narrow_strides (dim : nat) (start size : Z) (it : TensorIterator) :
  stride_bytes <$> operands_ (narrow dim start size it) = stride_bytes <$> operands_ it.
Proof. cbn. rewrite <- list_fmap_compose. by apply list_fmap_ext. Qed.

Lemma narrow_splittable (dim : nat) (start size : Z) (it : TensorIterator) :
  splittable it → splittable (narrow dim start size it).
Proof.
  intros [Hlen Hstr]. split.
  - cbn. by rewrite length_alter, length_insert.
  - pose proof (proj2 (Forall_fmap stride_bytes (Forall (λ s, 0 ≤ s)) _) Hstr) as H.
    rewrite <- (narrow_strides dim start size) in H.
    by apply (Forall_fmap stride_bytes (Forall (λ s, 0 ≤ s))) in H.
Qed.

Lemma split_splittable (dim : nat) (it : TensorIterator) :
  splittable it → splittable (split dim it).1 ∧ splittable (split dim it).2.
Proof. intros H. split; by apply narrow_splittable. Qed.





(** ** Memory reached by a narrowed iterator *)


Lemma offset_sub (strides g vo : list Z) :
  length g = length vo →
  offset strides (zip_with Z.sub g vo) = offset strides g - offset strides vo.
Proof.
  revert g vo. induction strides as [|s strides IH]; intros [|i g] [|o vo] Hlen;
    try done; try (by destruct g) .
  cbn [zip_with]. rewrite !offset_cons, IH by (cbn in Hlen; lia). lia.
Qed.

(** The address of the original position [g] for an operand of an
    iterator that covers it: the data pointer plus the offset of the local
    index [g - view_offsets].  It is the operand's origin plus the offset
    of [g] itself. *)
Lemma address_from_origin (it : TensorIterator) (op : OperandInfo) (g : list Z) :
  length g = length (view_offsets_ it) →
  (λ p, p + offset (stride_bytes op) (zip_with Z.sub g (view_offsets_ it))) <$> data op
  = (λ o, o + offset (stride_bytes op) g) <$> origin it op.
Proof.
  intros Hlen. unfold origin. destruct (data op) as [p|]; [|done]. cbn.
  rewrite offset_sub by done. f_equal. lia.
Qed.





(** ** The stack of pending iterators *)












(** * Properties of the rest of the interface *)

(** ** Registration, call by call *)

Lemma validate_cases (op : OperandInfo) :
  (unsupported_layout (tensor op)
   ∧ validate op
     = Throws (CheckFailed ("unsupported tensor layout: "
                            +:+ Layout_name (layout (tensor op)))))
  ∨ (¬ unsupported_layout (tensor op) ∧ validate op = Returns op).
Proof.
  unfold validate, unsupported_layout.
  destruct (defined (tensor op)); cbn.
  - case_bool_decide; [right|left]; (split; [|done]); [by intros [_ ?]|done].
  - right. split; [by intros [? _]|done].
Qed.

Lemma new_operand_cases (c : registration) :
  (unsupported_layout (registered_tensor c)
   ∧ new_operand c
     = Throws (CheckFailed ("unsupported tensor layout: "
                            +:+ Layout_name (layout (registered_tensor c)))))
  ∨ (¬ unsupported_layout (registered_tensor c)
     ∧ ∃ op, new_operand c = Returns op
           ∧ tensor op = registered_tensor c
           ∧ device op = registered_device c
           ∧ target_dtype op = registered_target_dtype c
           ∧ freshly_registered op).
Proof.
  assert (∀ op, tensor op = registered_tensor c →
            device op = registered_device c →
            target_dtype op = registered_target_dtype c →
            current_dtype op = scalar_type (tensor op) →
            stride_bytes op = [] → original_tensor op = None → data op = None →
            is_output op = false → is_read_write op = false →
            new_operand c = validate op →
            (unsupported_layout (registered_tensor c)
             ∧ new_operand c
               = Throws (CheckFailed ("unsupported tensor layout: "
                                      +:+ Layout_name (layout (registered_tensor c)))))
            ∨ (¬ unsupported_layout (registered_tensor c)
               ∧ ∃ op, new_operand c = Returns op
                     ∧ tensor op = registered_tensor c
                     ∧ device op = registered_device c
                     ∧ target_dtype op = registered_target_dtype c
                     ∧ freshly_registered op)) as H.
  { intros op Ht Hd Hty Hcur ? ? ? ? ? ->. rewrite <- Ht.
    destruct (validate_cases op) as [[Hbad ->]|[Hok ->]]; [by left|right].
    split; [done|]. exists op. split_and!; try done.
    unfold freshly_registered. split_and!; try done.
    intros Hdef. destruct (decide (layout (tensor op) = kStrided)); [done|].
    by destruct Hok. }
  destruct c as [t|t dev ty|t|t dev ty]; cbn [new_operand];
    unfold OperandInfo_of, OperandInfo_as; (eapply H; [..|reflexivity]); cbn;
    try done; by destruct t.
Qed.

Lemma register_unfold (c : registration) (it : TensorIterator) :
  register c it =
  match new_operand c with
  | Returns op => (Returns tt, registered c op it)
  | Throws e => (Throws e, it)
  end.
Proof.
  destruct c; cbn; unfold add_output, add_output_as, add_input, add_input_as,
    emplace_back, registered; run_M;
    match goal with |- context [match ?o with Returns _ => _ | Throws _ => _ end] =>
      destruct o end; reflexivity.
Qed.

Lemma register_all_app (cs1 cs2 : list registration) (it : TensorIterator) :
  register_all (cs1 ++ cs2) it =
  match register_all cs1 it with
  | (Returns _, it1) => register_all cs2 it1
  | (Throws e, it1) => (Throws e, it1)
  end.
Proof.
  revert it. induction cs1 as [|c cs1 IH]; intros it; [done|].
  cbn [app register_all]. unfold mbind, M_bind.
  destruct (register c it) as [[[]|e] it1]; [apply IH|done].
Qed.

(** X1: a registration call whose tensor is defined and not strided
    raises "unsupported tensor layout" and leaves the iterator exactly as
    it was; a sequence of registrations stops at the first such call, with
    the operands registered before it and none after. *)
Theorem registration_stops_at_unsupported_layout
    (cs1 cs2 : list registration) (c : registration) (it it1 : TensorIterator) :
  unsupported_layout (registered_tensor c) →
  register_all cs1 it = (Returns tt, it1) →
  let e := CheckFailed ("unsupported tensor layout: "
                        +:+ Layout_name (layout (registered_tensor c))) in
  register c it1 = (Throws e, it1)
  ∧ register_all (cs1 ++ c :: cs2) it = (Throws e, it1).
Proof.
  intros Hbad Hrun e.
  assert (register c it1 = (Throws e, it1)) as Hc.
  { rewrite register_unfold. by destruct (new_operand_cases c) as [[_ ->]|[? _]]. }
  split; [done|].
  rewrite register_all_app, Hrun. cbn [register_all]. unfold mbind, M_bind. by rewrite Hc.
Qed.

Lemma registration_stops_at_unsupported_layout_witness :
  let sparse := Some {| sizes := [2]; strides := [1]; scalar_type_ := Float;
                        device_ := kCPU; layout_ := kSparse; data_ptr_ := 0 |} in
  let r := register_all [AddOutput (vector_of 2 0); AddInput sparse;
                         AddInput (vector_of 2 64)] TensorIterator_new in
  r.1 = Throws (CheckFailed "unsupported tensor layout: Sparse")
  ∧ ntensors r.2 = 1.
Proof.
  intros sparse r.
  edestruct (registration_stops_at_unsupported_layout
               [AddOutput (vector_of 2 0)] [AddInput (vector_of 2 64)] (AddInput sparse)
               TensorIterator_new) as (_ & H);
    [by split | reflexivity |].
  unfold r. cbn [app] in H. rewrite H. by split.
Defined.

Lemma register_all_operands (cs : list registration) (it0 it : TensorIterator) :
  register_all cs it0 = (Returns tt, it) →
  ∃ ops, operands_ it = operands_ it0 ++ ops
       ∧ Forall2 (λ c op, new_operand c = Returns op) cs ops.
Proof.
  revert it0. induction cs as [|c cs IH]; intros it0.
  - intros [= <-]. exists []. by rewrite app_nil_r.
  - cbn [register_all]. unfold mbind, M_bind. rewrite register_unfold.
    destruct (new_operand c) as [op|e] eqn:Hop; [|done].
    intros (ops & Hops & Hall)%IH. exists (op :: ops). split; [|by constructor].
    rewrite Hops. unfold registered. destruct (registers_output c); cbn;
      by rewrite <- app_assoc.
Qed.

Lemma operand_at_lookup (it : TensorIterator) (k : nat) (op : OperandInfo) :
  operands_ it !! k = Some op → operand_at (Z.of_nat k) it = (Returns op, it).
Proof.
  intros H. unfold operand_at. destruct (Z.leb_spec 0 (Z.of_nat k)); [|lia].
  by rewrite Nat2Z.id, H.
Qed.

Lemma filter_complement_length {A} (f : A → bool) (l : list A) :
  (length (filter (λ x, f x = true) l) + length (filter (λ x, f x = false) l))%nat
  = length l.
Proof.
  induction l as [|x l IH]; [done|]. rewrite !filter_cons.
  destruct (f x); repeat case_decide; try done; cbn; lia.
Qed.

(** X2: when a sequence of registrations returns, the operands are there
    in call order, whatever the mix of outputs and inputs: [ntensors] is
    the number of calls, [noutputs] and [ninputs] count the two kinds, and
    at index [k] the accessors give back the tensor of the [k]-th call,
    that tensor's own element type (not the type asked for), the device
    asked for, and no strides yet. *)
Theorem registration_round_trip (cs : list registration) (it : TensorIterator) :
  register_all cs TensorIterator_new = (Returns tt, it) →
  ntensors it = Z.of_nat (length cs)
  ∧ noutputs it = Z.of_nat (length (filter (λ c, registers_output c = true) cs))
  ∧ ninputs it = Z.of_nat (length (filter (λ c, registers_output c = false) cs))
  ∧ ∀ (k : nat) c, cs !! k = Some c →
      tensor_at (Z.of_nat k) it = (Returns (registered_tensor c), it)
      ∧ dtype (Z.of_nat k) it = (Returns (scalar_type (registered_tensor c)), it)
      ∧ device_of (Z.of_nat k) it = (Returns (registered_device c), it)
      ∧ strides_of (Z.of_nat k) it = (Returns [], it).
Proof.
  intros Hrun.
  destruct (register_all_operands _ _ _ Hrun) as (ops & Hops & Hall). cbn in Hops.
  destruct (register_all_effect _ _ _ Hrun) as [_ Hnum]. cbn in Hnum.
  assert (ntensors it = Z.of_nat (length cs)) as Hlen.
  { unfold ntensors. rewrite Hops. by rewrite (Forall2_length _ _ _ Hall). }
  pose proof (filter_complement_length registers_output cs).
  unfold ninputs, noutputs. split_and!; [done|lia|lia|].
  intros k c Hk.
  destruct (Forall2_lookup_l _ _ _ _ _ Hall Hk) as (op & Hop & Hnew).
  rewrite <- Hops in Hop. pose proof (operand_at_lookup _ _ _ Hop) as Hat.
  destruct (new_operand_cases c) as [[_ Hthrow]|(_ & op' & Hret & Ht & Hd & _ & Hfresh)];
    [congruence|].
  assert (op' = op) as -> by congruence.
  destruct Hfresh as (_ & Hcur & Hstr & _).
  unfold tensor_at, dtype, device_of, strides_of. run_M. rewrite Hat.
  by rewrite Ht, Hcur, Hd, Hstr, Ht.
Qed.

Lemma registration_round_trip_witness :
  let cs := [AddInput (vector_of 3 0); AddOutputAs None kCPU Double] in
  let it := (register_all cs TensorIterator_new).2 in
  ntensors it = 2 ∧ noutputs it = 1 ∧ ninputs it = 1
  ∧ (dtype 0 it).1 = Returns Float ∧ (dtype 1 it).1 = Returns Undefined.
Proof.
  intros cs it.
  destruct (registration_round_trip cs it eq_refl) as (H1 & H2 & H3 & H).
  destruct (H 0%nat _ eq_refl) as (_ & H0 & _).
  destruct (H 1%nat _ eq_refl) as (_ & H1' & _).
  split_and!; [exact H1|exact H2|exact H3|exact (f_equal fst H0)|exact (f_equal fst H1')].
Defined.

(** ** Accessors at the ends of their range *)

(** X3: on an iterator whose output count lies between 0 and the operand
    count, [output(arg)] returns the tensor of operand [arg] for
    [0 <= arg < noutputs] and fails its assertion for [arg >= noutputs];
    the assertion does not look at the sign, so a negative [arg] passes it
    and the access falls outside the operand vector.  [input(arg)] returns
    the tensor of operand [noutputs + arg] for [0 <= arg < ninputs] and
    fails its assertion everywhere else.  Neither writes the iterator. *)
Theorem output_input_bounds (it : TensorIterator) (arg : Z) :
  0 ≤ num_outputs_ it ≤ ntensors it →
  (num_outputs_ it ≤ arg → output arg it = (Throws AssertFailed, it))
  ∧ (arg < 0 → output arg it = (Throws OutOfRange, it))
  ∧ (0 ≤ arg < num_outputs_ it →
     ∃ op, operands_ it !! Z.to_nat arg = Some op
         ∧ output arg it = (Returns (tensor op), it))
  ∧ (arg < 0 ∨ ninputs it ≤ arg → input arg it = (Throws AssertFailed, it))
  ∧ (0 ≤ arg < ninputs it →
     ∃ op, operands_ it !! Z.to_nat (num_outputs_ it + arg) = Some op
         ∧ input arg it = (Returns (tensor op), it)).
Proof.
  intros Hinv. unfold ninputs, noutputs. split_and!.
  - intros H. unfold output. run_M.
    by destruct (Z.ltb_spec arg (num_outputs_ it)); [lia|].
  - intros H. unfold output, operand_at. run_M.
    destruct (Z.ltb_spec arg (num_outputs_ it)); [|lia]. cbn.
    by destruct (Z.leb_spec 0 arg); [lia|].
  - intros H.
    destruct (lookup_lt_is_Some_2 (operands_ it) (Z.to_nat arg)) as [op Hop].
    { unfold ntensors in Hinv. lia. }
    exists op. split; [done|]. unfold output. run_M.
    destruct (Z.ltb_spec arg (num_outputs_ it)); [|lia]. cbn.
    rewrite <- (Z2Nat.id arg) at 1 by lia. by rewrite (operand_at_lookup _ _ _ Hop).
  - intros H. unfold input. run_M.
    destruct (Z.leb_spec 0 arg); cbn; [|done].
    by destruct (Z.ltb_spec arg (ntensors it - num_outputs_ it)); [lia|].
  - intros H.
    destruct (lookup_lt_is_Some_2 (operands_ it) (Z.to_nat (num_outputs_ it + arg)))
      as [op Hop].
    { unfold ntensors in Hinv, H. lia. }
    exists op. split; [done|]. unfold input. run_M.
    destruct (Z.leb_spec 0 arg); [|lia].
    destruct (Z.ltb_spec arg (ntensors it - num_outputs_ it)); [|lia]. cbn.
    rewrite <- (Z2Nat.id (num_outputs_ it + arg)) at 1 by lia.
    by rewrite (operand_at_lookup _ _ _ Hop).
Qed.

Lemma output_input_bounds_witness :
  let it := (register_all [AddOutput (vector_of 2 0); AddInput (vector_of 2 64)]
                          TensorIterator_new).2 in
  output 1 it = (Throws AssertFailed, it)
  ∧ input 1 it = (Throws AssertFailed, it)
  ∧ input 0 it = (Returns (vector_of 2 64), it).
Proof.
  intros it.
  destruct (output_input_bounds it 1) as (Hout & _ & _ & Hin & _); [by vm_compute|].
  destruct (output_input_bounds it 0) as (_ & _ & _ & _ & Hin0); [by vm_compute|].
  split_and!; [apply Hout; by vm_compute|apply Hin; right; by vm_compute|].
  destruct Hin0 as (op & Hop & ->); [by vm_compute|].
  cbv in Hop. by injection Hop as <-.
Defined.

(** X4: [input_dtype(arg)] reads operand [noutputs + arg] without the
    assertion that [input(arg)] makes.  For [-noutputs <= arg < 0], where
    [input] fails its assertion, it returns the element type of an output,
    the operand that [output(noutputs + arg)] returns; for
    [0 <= arg < ninputs] it is the type of the operand that [input(arg)]
    returns. *)
Theorem input_dtype_is_unchecked (it : TensorIterator) (arg : Z) :
  0 ≤ num_outputs_ it ≤ ntensors it →
  - num_outputs_ it ≤ arg < ninputs it →
  ∃ op, operands_ it !! Z.to_nat (num_outputs_ it + arg) = Some op
      ∧ input_dtype arg it = (Returns (current_dtype op), it)
      ∧ input_dtype arg it = dtype (num_outputs_ it + arg) it
      ∧ (arg < 0 →
         input arg it = (Throws AssertFailed, it)
         ∧ output (num_outputs_ it + arg) it = (Returns (tensor op), it))
      ∧ (0 ≤ arg → input arg it = (Returns (tensor op), it)).
Proof.
  intros Hinv Harg. unfold ninputs, noutputs in Harg.
  destruct (lookup_lt_is_Some_2 (operands_ it) (Z.to_nat (num_outputs_ it + arg)))
    as [op Hop].
  { unfold ntensors in Hinv, Harg. lia. }
  assert (operand_at (num_outputs_ it + arg) it = (Returns op, it)) as Hat.
  { rewrite <- (Z2Nat.id (num_outputs_ it + arg)) at 1 by lia.
    by apply operand_at_lookup. }
  exists op. split_and!; [done| | | |].
  - unfold input_dtype. run_M. by rewrite Hat.
  - unfold input_dtype, dtype. run_M. by rewrite Hat.
  - intros Hneg. split.
    + unfold input. run_M. by destruct (Z.leb_spec 0 arg); [lia|].
    + unfold output. run_M.
      destruct (Z.ltb_spec (num_outputs_ it + arg) (num_outputs_ it)); [|lia]. cbn.
      by rewrite Hat.
  - intros Hpos. unfold input. run_M.
    destruct (Z.leb_spec 0 arg); [|lia].
    destruct (Z.ltb_spec arg (ntensors it - num_outputs_ it)); [|lia]. cbn.
    by rewrite Hat.
Qed.

Lemma input_dtype_is_unchecked_witness :
  let out := Some {| sizes := [2]; strides := [1]; scalar_type_ := Double;
                     device_ := kCPU; layout_ := kStrided; data_ptr_ := 0 |} in
  let it := (register_all [AddOutput out; AddInput (vector_of 2 64)]
                          TensorIterator_new).2 in
  input_dtype (-1) it = (Returns Double, it)
  ∧ input (-1) it = (Throws AssertFailed, it).
Proof.
  intros out it.
  destruct (input_dtype_is_unchecked it (-1)) as (op & Hop & Hty & _ & Hneg & _);
    [by vm_compute | by vm_compute |].
  destruct Hneg as [Hin _]; [lia|]. split; [|exact Hin].
  rewrite Hty. cbv in Hop. by injection Hop as <-.
Defined.

(** ** Static shape with a squashed dimension *)

Lemma declare_static_shape_squash_unfold (s : list Z) (d : Z) (it : TensorIterator) :
  declare_static_shape_squash s d it =
  if resize_outputs_ it
  then (Throws (CheckFailed
          "dont_resize_outputs() must be called before declare_static_shape(...)"), it)
  else
    let it1 := set_static_shape_ true (set_shape_ s it) in
    if bool_decide (length s = 0%nat) then (Returns tt, it1)
    else if (0 <=? d) && (d <? Z.of_nat (length s))
    then (Returns tt, set_shape_ (<[Z.to_nat d := 1]> s) it1)
    else (Throws (CheckFailed ("squash_dim " +:+ pretty d +:+ " must be in [0, "
                               +:+ pretty (length s) +:+ ").")), it1).
Proof.
  unfold declare_static_shape_squash, mbind at 1, M_bind.
  rewrite declare_static_shape_unfold.
  destruct (resize_outputs_ it); [done|]. run_M.
  case_bool_decide; [done|].
  by destruct ((0 <=? d) && (d <? Z.of_nat (length s))).
Qed.

(** X5: with resizing disabled, [declare_static_shape(shape, squash_dim)]
    on an empty shape returns before it looks at [squash_dim], so any
    value is accepted; on a non-empty shape a [squash_dim] outside
    [0, ndim) raises, and by then the shape has been stored and marked
    static: the iterator is left pinned to the unsquashed shape. *)
Theorem declare_static_shape_squash_edges (it : TensorIterator) (s : list Z) (d : Z) :
  resize_outputs_ it = false →
  declare_static_shape_squash [] d it
    = (Returns tt, set_static_shape_ true (set_shape_ [] it))
  ∧ (s ≠ [] → ¬ (0 ≤ d < Z.of_nat (length s)) →
     ∃ msg, declare_static_shape_squash s d it
              = (Throws (CheckFailed msg), set_static_shape_ true (set_shape_ s it))
          ∧ shape (declare_static_shape_squash s d it).2 = s
          ∧ static_shape_ (declare_static_shape_squash s d it).2 = true).
Proof.
  intros Hr. split.
  - by rewrite declare_static_shape_squash_unfold, Hr.
  - intros Hs Hd. rewrite declare_static_shape_squash_unfold, Hr. cbv zeta.
    rewrite bool_decide_eq_false_2 by (by destruct s).
    destruct (Z.leb_spec 0 d); destruct (Z.ltb_spec d (Z.of_nat (length s)));
      cbn [andb]; try lia; by eexists.
Qed.

Lemma declare_static_shape_squash_edges_witness :
  let it := (dont_resize_outputs TensorIterator_new).2 in
  (declare_static_shape_squash [] (-7) it).1 = Returns tt
  ∧ (declare_static_shape_squash [4; 5] 2 it).1
    = Throws (CheckFailed "squash_dim 2 must be in [0, 2).")
  ∧ shape (declare_static_shape_squash [4; 5] 2 it).2 = [4; 5].
Proof.
  intros it.
  destruct (declare_static_shape_squash_edges it [4; 5] 2 eq_refl) as [H0 H1].
  destruct H1 as (msg & H1 & H2 & _); [done | cbn; lia |].
  split_and!; [|reflexivity|exact H2].
  by rewrite (proj1 (declare_static_shape_squash_edges it [] (-7) eq_refl)).
Defined.

(** ** Order of the flag setters *)

(** X6: the same-dtype check follows the last call that wrote it.
    [check_all_same_dtype(true)] made after promotion (or casting) was
    enabled turns the check back on with promotion still enabled; made
    before, it is undone.  The two orders differ in that one member only,
    while enabling promotion and enabling casting commute. *)
Theorem same_dtype_check_follows_last_call (it : TensorIterator) :
  let after := ((promote_inputs_to_common_dtype true;; check_all_same_dtype true) it).2 in
  let before := ((check_all_same_dtype true;; promote_inputs_to_common_dtype true) it).2 in
  check_all_same_dtype_ after = true
  ∧ promote_inputs_to_common_dtype_ after = true
  ∧ check_all_same_dtype_ before = false
  ∧ before = set_check_all_same_dtype_ false after
  ∧ check_all_same_dtype_
      ((cast_common_dtype_to_outputs true;; check_all_same_dtype true) it).2 = true
  ∧ check_all_same_dtype_
      ((check_all_same_dtype true;; cast_common_dtype_to_outputs true) it).2 = false
  ∧ (promote_inputs_to_common_dtype true;; cast_common_dtype_to_outputs true) it
    = (cast_common_dtype_to_outputs true;; promote_inputs_to_common_dtype true) it.
Proof. cbv zeta. split_and!; reflexivity. Qed.

(** ** What the calls leave alone *)

Lemma register_frame (c : registration) (it : TensorIterator) :
  set_operands_ (operands_ it) (set_num_outputs_ (num_outputs_ it) (register c it).2) = it.
Proof.
  rewrite register_unfold. destruct (new_operand c) as [op|e]; cbn [snd].
  - unfold registered. destruct (registers_output c); by destruct it.
  - by destruct it.
Qed.

Lemma set_operands_num_outputs (ops ops' : list OperandInfo) (n n' : Z)
    (it : TensorIterator) :
  set_operands_ ops (set_num_outputs_ n (set_operands_ ops' (set_num_outputs_ n' it)))
  = set_operands_ ops (set_num_outputs_ n it).
Proof. reflexivity. Qed.

(** X7: registration and configuration do not touch each other's state.
    A sequence of registrations, whether it returns or stops at a call
    that raised, changes [operands_] and [num_outputs_] and nothing else;
    every other construction call leaves those two as they are. *)
Theorem registration_and_configuration_are_separate
    (cs : list registration) (c : construction) (it : TensorIterator) :
  set_operands_ (operands_ it) (set_num_outputs_ (num_outputs_ it) (register_all cs it).2)
  = it
  ∧ ((∀ r, c ≠ Register r) →
     operands_ (construct c it).2 = operands_ it
     ∧ num_outputs_ (construct c it).2 = num_outputs_ it).
Proof.
  split.
  - revert it. induction cs as [|r cs IH]; intros it; [by destruct it|].
    cbn [register_all]. unfold mbind, M_bind.
    pose proof (register_frame r it) as Hr.
    destruct (register r it) as [[[]|e] it1]; cbn [snd] in *; [|done].
    specialize (IH it1).
    rewrite <- (set_operands_num_outputs _ (operands_ it1) _ (num_outputs_ it1)).
    by rewrite IH.
  - intros Hc. destruct c as [r| | | | | [|] | [|] | |s|s d]; cbn [construct];
      try done; try (by destruct (Hc r)).
    + rewrite declare_static_shape_unfold. by destruct (resize_outputs_ it).
    + rewrite declare_static_shape_squash_unfold. cbv zeta.
      destruct (resize_outputs_ it); [done|]. case_bool_decide; [done|].
      by destruct ((0 <=? d) && (d <? Z.of_nat (length s))).
Qed.

Lemma registration_and_configuration_are_separate_witness :
  let it := (dont_resize_outputs TensorIterator_new).2 in
  operands_ (construct (DeclareStaticShape [2; 3]) it).2 = operands_ it.
Proof.
  intros it.
  by destruct (registration_and_configuration_are_separate
                 [] (DeclareStaticShape [2; 3]) it) as [_ [H _]].
Defined.

(** ** Before [build] *)

Lemma before_build_new : before_build TensorIterator_new.
Proof. unfold before_build. split_and!; done. Qed.

Lemma construct_before_build (c : construction) (it : TensorIterator) :
  before_build it → before_build (construct c it).2.
Proof.
  intros Hinv. pose proof Hinv as Hinv'. unfold before_build in Hinv'.
  destruct Hinv' as (Hcd & Hst & Hsh & Hnum & Hops & Hrest). destruct_and!.
  destruct c as [r|b|b|b|b|b|b| |s|s d]; cbn [construct].
  - rewrite register_unfold.
    destruct (new_operand_cases r) as [[_ ->]|(_ & op & -> & _ & _ & _ & Hfresh)];
      [done|]. cbn [snd].
    assert (Forall freshly_registered (operands_ it ++ [op])) as Hops'.
    { apply Forall_app. split; [done|]. by constructor. }
    unfold ntensors in *.
    unfold registered. destruct (registers_output r); unfold before_build;
      split_and!; cbn; try done; unfold ntensors; cbn; rewrite ?length_app; cbn; lia.
  - done.
  - done.
  - done.
  - done.
  - by destruct b.
  - by destruct b.
  - unfold before_build. split_and!; cbn; done.
  - rewrite declare_static_shape_unfold.
    destruct (resize_outputs_ it) eqn:Hr; [done|].
    unfold before_build. split_and!; cbn; done.
  - rewrite declare_static_shape_squash_unfold. cbv zeta.
    destruct (resize_outputs_ it) eqn:Hr; [done|].
    case_bool_decide; [by unfold before_build; split_and!; cbn|].
    destruct ((0 <=? d) && (d <? Z.of_nat (length s)));
      unfold before_build; split_and!; cbn; done.
Qed.

Lemma configure_before_build (cs : list construction) (it : TensorIterator) :
  before_build it → before_build (configure cs it).
Proof.
  revert it. induction cs as [|c cs IH]; intros it Hinv; [done|].
  apply IH. by apply construct_before_build.
Qed.

(** X8: however the construction calls are ordered, and whichever of
    them raised, an iterator whose shape is static has resizing of the
    outputs disabled, and one whose shape is not static has no shape yet.
    No call turns resizing back on, and none takes the static mark
    away. *)
Theorem static_shape_has_resizing_off (cs : list construction) (c : construction)
    (it0 : TensorIterator) :
  let it := configure cs TensorIterator_new in
  (static_shape_ it = true → resize_outputs_ it = false)
  ∧ (static_shape_ it = false → shape it = [] ∧ ndim it = 0)
  ∧ (resize_outputs_ it0 = false → resize_outputs_ (construct c it0).2 = false)
  ∧ (static_shape_ it0 = true → static_shape_ (construct c it0).2 = true).
Proof.
  cbv zeta.
  destruct (configure_before_build cs _ before_build_new) as (_ & Hst & Hsh & _).
  split_and!; [done| | |].
  - intros H. unfold ndim, shape. by rewrite (Hsh H).
  - intros Hr. destruct c as [r|b|b|b|b|[|]|[|]| |s|s d]; cbn [construct]; try done.
    + rewrite register_unfold. destruct (new_operand r); [|done].
      unfold registered. by destruct (registers_output r).
    + by rewrite declare_static_shape_unfold, Hr.
    + rewrite declare_static_shape_squash_unfold, Hr. cbv zeta.
      case_bool_decide; [done|].
      by destruct ((0 <=? d) && (d <? Z.of_nat (length s))).
  - intros Hs. destruct c as [r|b|b|b|b|[|]|[|]| |s|s d]; cbn [construct]; try done.
    + rewrite register_unfold. destruct (new_operand r); [|done].
      unfold registered. by destruct (registers_output r).
    + rewrite declare_static_shape_unfold. by destruct (resize_outputs_ it0).
    + rewrite declare_static_shape_squash_unfold. cbv zeta.
      destruct (resize_outputs_ it0); [done|]. case_bool_decide; [done|].
      by destruct ((0 <=? d) && (d <? Z.of_nat (length s))).
Qed.

Lemma static_shape_has_resizing_off_witness :
  let it := configure [Register (AddOutput (vector_of 6 0)); DeclareStaticShape [6];
                       DontResizeOutputs; DeclareStaticShapeSquash [6] 0]
                      TensorIterator_new in
  static_shape_ it = true ∧ resize_outputs_ it = false ∧ shape it = [1].
Proof.
  intros it.
  destruct (static_shape_has_resizing_off
              [Register (AddOutput (vector_of 6 0)); DeclareStaticShape [6];
               DontResizeOutputs; DeclareStaticShapeSquash [6] 0]
              DontResizeOutputs TensorIterator_new) as (H & _).
  split_and!; [reflexivity|by apply H|reflexivity].
Defined.

(** X9: no construction call computes the common dtype: after any
    sequence of them on a new iterator [common_dtype()] raises
    "Queried for invalid common dtype!" and leaves the iterator as it
    is. *)
Theorem common_dtype_raises_before_build (cs : list construction) :
  common_dtype (configure cs TensorIterator_new)
  = (Throws (InternalAssertFailed "Queried for invalid common dtype!"),
     configure cs TensorIterator_new).
Proof.
  destruct (configure_before_build cs _ before_build_new) as (Hcd & _).
  unfold common_dtype. run_M. by rewrite Hcd.
Qed.

(** X10: after any sequence of construction calls on a new iterator the
    output count lies between 0 and the operand count, every operand is
    as its constructor left it (a defined tensor is strided, the current
    dtype is the tensor's, no strides, no data pointer, not marked as
    output or read-write), and the members that only planning writes keep
    their initial values: no accumulation, final output, no recorded
    permutation or view offsets. *)
Theorem operands_untouched_before_build (cs : list construction) :
  let it := configure cs TensorIterator_new in
  0 ≤ noutputs it ≤ ntensors it
  ∧ 0 ≤ ninputs it
  ∧ Forall freshly_registered (operands_ it)
  ∧ should_accumulate it = false
  ∧ is_final_output it = true
  ∧ perm_ it = [] ∧ view_offsets it = [] ∧ has_coalesced_dimensions_ it = false.
Proof.
  cbv zeta.
  destruct (configure_before_build cs _ before_build_new)
    as (_ & _ & _ & Hnum & Hops & Hperm & Hvo & _ & Hco & Hacc & _ & _ & Hfin & _).
  unfold ninputs, noutputs. split_and!; try done; lia.
Qed.

(** ** The first dimension *)

Lemma has_contiguous_first_dim_from_spec (it : TensorIterator) (post pre : list OperandInfo) :
  operands_ it = pre ++ post →
  (∀ j op, post !! j = Some op →
           forallb first_dim_contiguous (take j post) = true → stride_bytes op ≠ []) →
  has_contiguous_first_dim_from (Z.of_nat (length pre)) (length post) it
  = (Returns (forallb first_dim_contiguous post), it).
Proof.
  revert pre. induction post as [|op post IH]; intros pre Hops Hreach; [done|].
  assert (operand_at (Z.of_nat (length pre)) it = (Returns op, it)) as Hat.
  { apply operand_at_lookup. rewrite Hops. by apply list_lookup_middle. }
  destruct (stride_bytes op) as [|s rest] eqn:Hs.
  { by destruct (Hreach 0%nat op eq_refl eq_refl). }
  cbn [length has_contiguous_first_dim_from forallb].
  unfold strides_of, element_size, dtype. run_M.
  rewrite Hat. cbn. rewrite Hs. cbn. rewrite ?Hat. cbn.
  unfold first_dim_contiguous at 1. rewrite Hs. cbn.
  case_bool_decide as Hne.
  - by rewrite bool_decide_eq_false_2 by (by intros [= ->]).
  - rewrite bool_decide_eq_true_2 by (by f_equal). cbn.
    replace (Z.of_nat (length pre) + 1) with (Z.of_nat (length (pre ++ [op])))
      by (rewrite length_app; cbn; lia).
    apply IH.
    + by rewrite <- app_assoc.
    + intros j op' Hj Htake. apply (Hreach (S j) op' Hj). cbn [take forallb].
      rewrite Htake, andb_true_r. unfold first_dim_contiguous. rewrite Hs. cbn.
      apply bool_decide_eq_true_2. by f_equal.
Qed.

(** X11: when every operand that the loop of [has_contiguous_first_dim]
    reaches (every operand whose predecessors all passed the test) has at
    least one stride, the call returns whether the first stride of every
    operand equals the element size of that operand's current dtype, and
    does not write the iterator.  The loop stops at the first operand that
    fails the test, so operands after it are not looked at; an iterator
    without operands gives true. *)
Theorem has_contiguous_first_dim_spec (it : TensorIterator) :
  (∀ j op, operands_ it !! j = Some op →
           forallb first_dim_contiguous (take j (operands_ it)) = true →
           stride_bytes op ≠ []) →
  has_contiguous_first_dim it
  = (Returns (forallb first_dim_contiguous (operands_ it)), it)
  ∧ (forallb first_dim_contiguous (operands_ it) = true
     ↔ ∀ op, op ∈ operands_ it →
             ∃ rest, stride_bytes op = elementSize (current_dtype op) :: rest).
Proof.
  intros Hreach. split.
  - unfold has_contiguous_first_dim. run_M. unfold ntensors. rewrite Nat2Z.id.
    by apply (has_contiguous_first_dim_from_spec it (operands_ it) []).
  - rewrite forallb_forall. split.
    + intros H op Hop. apply list_elem_of_In, H in Hop.
      apply bool_decide_eq_true in Hop.
      destruct (stride_bytes op) as [|s rest]; [done|].
      exists rest. cbn in Hop. congruence.
    + intros H op Hop. apply list_elem_of_In, H in Hop as [rest Hop].
      apply bool_decide_eq_true_2. by rewrite Hop.
Qed.

Lemma has_contiguous_first_dim_spec_witness :
  let op s := {| stride_bytes := s; tensor := vector_of 3 0; original_tensor := None;
                 device := kCPU; target_dtype := Float; current_dtype := Float;
                 data := None; is_output := false; is_read_write := false |} in
  let it := set_operands_ [op [4]; op [8]; op []] TensorIterator_new in
  has_contiguous_first_dim it = (Returns false, it).
Proof.
  intros op it.
  refine (proj1 (has_contiguous_first_dim_spec it _)).
  intros [|[|[|j]]] o Hj Ht;
    [by injection Hj as <- | by injection Hj as <- | by vm_compute in Ht | done].
Defined.

(** ** Positions of the sequence of splits *)

(** X12: on live positions [operator==] is an equivalence relation:
    every position equals itself, the comparison is symmetric, and it is
    transitive.  It compares identity, not content: two different objects
    of which one still has an iterator on its stack are unequal, also when
    both stacks hold the same iterators, and then [operator!=] is true. *)
Theorem iterator_eq_equivalence (σ : gmap address iterator) (p q r : address)
    (a b c : iterator) :
  σ !! p = Some a →
  σ !! q = Some b →
  σ !! r = Some c →
  iterator_eq σ p p = Some true
  ∧ iterator_eq σ p q = iterator_eq σ q p
  ∧ (iterator_eq σ p q = Some true → iterator_eq σ q r = Some true →
     iterator_eq σ p r = Some true)
  ∧ (p ≠ q → vec a ≠ [] →
     iterator_eq σ p q = Some false ∧ iterator_ne σ p q = Some true).
Proof.
  intros Ha Hb Hc. unfold iterator_ne, iterator_eq. rewrite Ha, Hb, Hc. cbn.
  split_and!.
  - by rewrite bool_decide_eq_true_2.
  - f_equal. f_equal; [|apply andb_comm].
    apply bool_decide_ext. split; by intros ->.
  - intros [= H1] [= H2]. f_equal.
    apply orb_true_iff in H1 as [H1|H1], H2 as [H2|H2].
    + apply bool_decide_eq_true in H1, H2. subst.
      by rewrite bool_decide_eq_true_2.
    + apply bool_decide_eq_true in H1. subst q.
      assert (a = b) as -> by congruence. by rewrite H2, orb_true_r.
    + apply bool_decide_eq_true in H2. subst r.
      assert (b = c) as -> by congruence. by rewrite H1, orb_true_r.
    + apply andb_true_iff in H1 as [H1 _], H2 as [_ H2].
      by rewrite H1, H2, orb_true_r.
  - intros Hne Hv. rewrite bool_decide_eq_false_2 by done.
    by destruct (vec a).
Qed.

Lemma iterator_eq_equivalence_witness :
  let σ : gmap address iterator :=
    <[2%positive := {| vec := [TensorIterator_new] |}]>
      {[1%positive := {| vec := [TensorIterator_new] |}]} in
  iterator_eq σ 1%positive 2%positive = Some false
  ∧ iterator_ne σ 1%positive 2%positive = Some true.
Proof.
  intros σ.
  destruct (iterator_eq_equivalence σ 1%positive 2%positive 1%positive
              {| vec := [TensorIterator_new] |} {| vec := [TensorIterator_new] |}
              {| vec := [TensorIterator_new] |})
    as (_ & _ & _ & H); [reflexivity | reflexivity | reflexivity |].
  apply H; done.
Defined.

(** ** Target and current dtype of an operand *)

(** X13: when a sequence of registrations returns, the operand of the
    [k]-th call carries as target dtype the dtype given with the call, or
    the tensor's own when none was given, and as current dtype always the
    tensor's own; [is_type_defined] reports on the target dtype only.  So
    an operand registered for an undefined tensor with an explicit dtype
    has a defined type, and one registered without has not; neither kind
    of call marks the operand as an output. *)
Theorem registered_operand_types (cs : list registration) (it : TensorIterator)
    (k : nat) (c : registration) :
  register_all cs TensorIterator_new = (Returns tt, it) →
  cs !! k = Some c →
  ∃ op, operands_ it !! k = Some op
        ∧ target_dtype op = registered_target_dtype c
        ∧ current_dtype op = scalar_type (registered_tensor c)
        ∧ (is_type_defined op = true ↔ registered_target_dtype c ≠ Undefined)
        ∧ is_output op = false.
Proof.
  intros Hrun Hk.
  destruct (register_all_operands _ _ _ Hrun) as (ops & Hops & Hall). cbn in Hops.
  destruct (Forall2_lookup_l _ _ _ _ _ Hall Hk) as (op & Hop & Hnew).
  rewrite <- Hops in Hop. exists op.
  destruct (new_operand_cases c) as [[_ Hthrow]|(_ & op' & Hret & Ht & _ & Hty & Hfresh)];
    [congruence|].
  assert (op' = op) as -> by congruence.
  destruct Hfresh as (_ & Hcur & _ & _ & _ & Hout & _).
  split_and!; [done|done|by rewrite Hcur, Ht| |done].
  unfold is_type_defined. rewrite Hty, negb_true_iff, bool_decide_eq_false. done.
Qed.

Lemma registered_operand_types_witness :
  let cs := [AddOutputAs None kCPU Double; AddInput None] in
  let it := (register_all cs TensorIterator_new).2 in
  (∃ op, operands_ it !! 0%nat = Some op ∧ is_type_defined op = true
         ∧ current_dtype op = Undefined)
  ∧ (∃ op, operands_ it !! 1%nat = Some op ∧ is_type_defined op = false).
Proof.
  intros cs it. split.
  - destruct (registered_operand_types cs it 0%nat _ eq_refl eq_refl)
      as (op & Hop & _ & Hcur & Hdef & _).
    exists op. split_and!; [done| |done]. by apply Hdef.
  - destruct (registered_operand_types cs it 1%nat _ eq_refl eq_refl)
      as (op & Hop & _ & _ & Hdef & _).
    exists op. split; [done|]. apply not_true_is_false. intros H.
    by apply Hdef in H.
Defined.
